(** * Playback component of a game object: [gameobjects/components/Animation.js]

    A shallow embedding of the per-entity animation component (the object a
    Sprite exposes as [anims]) together with the properties of its playback
    state machine.

    Conventions of the embedding.
    - A JavaScript number is an exact rational ([Q]); [===] on numbers is
      [Qeq_bool], the order tests are [Qle_bool] and its strict variant.
      Rounding, [NaN] and the infinities of IEEE arithmetic are outside the
      model, except for the [NaN] that [-=] produces on a non-number.  The
      source rounds every sum and product to a double, so the model
      computes what the source computes on the runs whose numbers are all
      doubles ([exact_run]); a statement that says at which [update] call
      an accumulated sum reaches a threshold is made for those runs.
    - A method is a function from the component to a [Result]: the returned
      component is the mutated [this]; a JavaScript exception is [Throw].
      The value every method returns ([this.parent]) is part of the component.
    - [this.stop()] is reachable from itself through [play]; the nested call
      is tied by a fuel argument ([stop]), and [OutOfFuel] marks a run whose
      nesting went deeper than the fuel.
    - Event emission is recorded in a chronological log ([emitted]); listeners
      are not run.  [console.warn] is recorded in [console]. *)

From Stdlib Require Import QArith Qabs Qpower ZArith Bool List String Lia Lqa.
Import ListNotations.

Open Scope string_scope.
Open Scope Q_scope.

(** ** Values exchanged with the collaborators *)

(** The texture frame an animation frame points at ([animationFrame.frame]). *)
Module TFrame.
Record t : Type := mk {
  texture : string;
  name : string;
  customPivot : bool;
  pivotX : Q;
  pivotY : Q
}.
End TFrame.

(** One frame descriptor of a Definition ([Phaser.Animations.AnimationFrame]).
    [uid] stands for the identity of the object: [===] between two frames
    compares it. *)
Module AFrame.
Record t : Type := mk {
  uid : nat;
  frame : TFrame.t;
  progress : Q;
  setAlpha : bool;
  alpha : Q
}.

Definition same (f g : t) : bool := Nat.eqb (uid f) (uid g).
End AFrame.

(** A registered animation ([Phaser.Animations.Animation]), the data the
    component reads from it. *)
Module Def.
Record t : Type := mk {
  key : string;
  frames : list AFrame.t;
  frameRate : Q;
  duration : Q;
  delay : Q;
  repeat : Q;
  repeatDelay : Q;
  yoyo : bool;
  showOnStart : bool;
  hideOnComplete : bool;
  skipMissedFrames : bool;
  paused : bool
}.
End Def.

Definition AnimationDef : Type := Def.t.

(** [Types.Animations.PlayAnimationConfig]: every property is optional. *)
Module Cfg.
Record t : Type := mk {
  key : option string;
  frameRate : option Q;
  duration : option Q;
  delay : option Q;
  repeat : option Q;
  repeatDelay : option Q;
  yoyo : option bool;
  showOnStart : option bool;
  hideOnComplete : option bool;
  skipMissedFrames : option bool;
  timeScale : option Q;
  startFrame : option Q
}.
End Cfg.

(** The [key] argument of [load], [play] and the like: a string or a
    configuration object. *)
Inductive PlayKey : Type :=
| KString (s : string)
| KConfig (cfg : Cfg.t).

(** A slot that holds [null], [undefined] or a frame object. *)
Inductive FrameSlot : Type :=
| FNull
| FUndefined
| FObj (f : AFrame.t).

(** The [nextAnim] slot. *)
Inductive NextAnim : Type :=
| NNull
| NUndefined
| NKey (k : PlayKey).

(** [_pendingStopValue] is typed [any] in the source: milliseconds, a repeat
    count or a frame, [undefined] after construction. *)
Inductive PendingValue : Type :=
| PVUndefined
| PVNumber (q : Q)
| PVNaN
| PVFrame (f : AFrame.t).

(** The six kinds of notification; [emitEvents] sends each on three
    channels. *)
Inductive EventKind : Type :=
| START | REPEAT | STOP | COMPLETE | RESTART | UPDATE.

Inductive Emitted : Type :=
| AnimEmit (k : EventKind) (animKey : string) (f : FrameSlot)
| SpriteKeyEmit (k : EventKind) (animKey : string) (f : FrameSlot)
| SpriteEmit (k : EventKind) (animKey : string) (f : FrameSlot).

(** Calls the component makes on its game object besides property writes. *)
Inductive ParentCall : Type :=
| UpdateCropUVs
| SetSizeToFrame
| SetOrigin (x y : Q)
| UpdateDisplayOrigin.

(** Modelled from the spec: the owning entity (Sprite and its mixins, absent
    from the component's file): settable visibility, alpha and texture/frame
    reference, "set size to frame", "update display origin" / "set origin"
    for custom pivots.  Method calls are logged in [calls]. *)
Module GO.
Record t : Type := mk {
  visible : bool;
  alpha : Q;
  texture : option string;
  frame : option TFrame.t;
  isCropped : bool;
  _originComponent : bool;
  calls : list ParentCall
}.

Definition setVisible (v : bool) (g : t) : t :=
  mk v (alpha g) (texture g) (frame g) (isCropped g) (_originComponent g)
     (calls g).

Definition set_alpha (a : Q) (g : t) : t :=
  mk (visible g) a (texture g) (frame g) (isCropped g) (_originComponent g)
     (calls g).

Definition set_texture (x : string) (g : t) : t :=
  mk (visible g) (alpha g) (Some x) (frame g) (isCropped g)
     (_originComponent g) (calls g).

Definition set_frame (f : TFrame.t) (g : t) : t :=
  mk (visible g) (alpha g) (texture g) (Some f) (isCropped g)
     (_originComponent g) (calls g).

Definition call (k : ParentCall) (g : t) : t :=
  mk (visible g) (alpha g) (texture g) (frame g) (isCropped g)
     (_originComponent g) (calls g ++ [k]).
End GO.

Definition GameObject : Type := GO.t.

(** ** Outcome of a method call *)

Inductive JSError : Type :=
| TypeError (msg : string).

Inductive Result (A : Type) : Type :=
| Ok (a : A)
| Throw (e : JSError)
| OutOfFuel.

Arguments Ok {A} a.
Arguments Throw {A} e.
Arguments OutOfFuel {A}.

Definition bind {A B : Type} (m : Result A) (k : A -> Result B) : Result B :=
  match m with
  | Ok a => k a
  | Throw e => Throw e
  | OutOfFuel => OutOfFuel
  end.

Notation "x <- m ;; k" := (bind m (fun x => k))
  (at level 61, m at next level, right associativity).

(** ** JavaScript primitives used by the component *)

(** [Number.MAX_VALUE], the largest finite double. *)
Definition MAX_VALUE : Q := inject_Z (2 ^ 1024 - 2 ^ 971).

(** [a > b] on numbers. *)
Definition Qgt_bool (a b : Q) : bool := negb (Qle_bool a b).

(** [a >= b] on numbers. *)
Definition Qge_bool (a b : Q) : bool := Qle_bool b a.

(** Truthiness of a string: only the empty string is falsy. *)
Definition truthy_string (s : string) : bool :=
  match s with
  | EmptyString => false
  | _ => true
  end.

Definition truthy_next (n : NextAnim) : bool :=
  match n with
  | NKey (KString s) => truthy_string s
  | NKey (KConfig _) => true
  | _ => false
  end.

(** [array[i]] for a number [i]: defined only at an integer index inside the
    array, [undefined] everywhere else. *)
Definition array_index (l : list AFrame.t) (i : Q) : FrameSlot :=
  let r := Qred i in
  if (Pos.eqb (Qden r) 1 && Z.leb 0 (Qnum r))%bool
  then match nth_error l (Z.to_nat (Qnum r)) with
       | Some f => FObj f
       | None => FUndefined
       end
  else FUndefined.

(** [queue.shift()]: the head and the rest, [undefined] on an empty array. *)
Definition shift (q : list PlayKey) : NextAnim * list PlayKey :=
  match q with
  | [] => (NUndefined, [])
  | k :: rest => (NKey k, rest)
  end.

(** ['...' + animKey] for a key that may be [null]. *)
Definition show_key (k : option string) : string :=
  match k with
  | Some s => s
  | None => "null"
  end.

(** [x -= delta] on an [any]-typed slot: a non-number becomes [NaN]. *)
Definition pv_sub (v : PendingValue) (delta : Q) : PendingValue :=
  match v with
  | PVNumber q => PVNumber (q - delta)
  | _ => PVNaN
  end.

(** [x <= 0] on an [any]-typed slot; every comparison with [NaN] is false. *)
Definition pv_le0 (v : PendingValue) : bool :=
  match v with
  | PVNumber q => Qle_bool q 0
  | _ => false
  end.

(** [x === frame] on an [any]-typed slot. *)
Definition pv_is_frame (v : PendingValue) (f : AFrame.t) : bool :=
  match v with
  | PVFrame g => AFrame.same g f
  | _ => false
  end.

(** Modelled from the spec: [GetFastValue(source, key, default)] of
    [utils/object], absent from the component's file: a value present in the
    request wins over the default; a string request carries no value. *)
Definition GetFastValue {A : Type}
  (source : PlayKey) (field : Cfg.t -> option A) (default : A) : A :=
  match source with
  | KString _ => default
  | KConfig cfg =>
      match field cfg with
      | Some v => v
      | None => default
      end
  end.

(** Modelled from the spec: the registry lookup [manager.get(key)],
    [resolve(key) -> Definition | not-found]; a [null] key resolves to
    nothing. *)
Fixpoint manager_get (m : list (string * AnimationDef)) (k : option string)
  : option AnimationDef :=
  match m, k with
  | (k', a) :: rest, Some s =>
      if String.eqb k' s then Some a else manager_get rest k
  | _, _ => None
  end.

(** Modelled from the spec: [anim.getTotalFrames()], the total frame count of
    the Definition's frame sequence. *)
Definition def_getTotalFrames (a : AnimationDef) : Q :=
  inject_Z (Z.of_nat (List.length (Def.frames a))).

(** ** The component *)

Record Component : Type := mkComponent {
  parent : GameObject;
  animationManager : list (string * AnimationDef);
  isPlaying : bool;
  hasStarted : bool;
  currentAnim : option AnimationDef;
  currentFrame : FrameSlot;
  nextAnim : NextAnim;
  nextAnimsQueue : list PlayKey;
  timeScale : Q;
  frameRate : Q;
  duration : Q;
  msPerFrame : Q;
  skipMissedFrames : bool;
  delay : Q;
  repeat : Q;
  repeatDelay : Q;
  yoyo : bool;
  showOnStart : bool;
  hideOnComplete : bool;
  forward : bool;
  inReverse : bool;
  accumulator : Q;
  nextTick : Q;
  delayCounter : Q;
  repeatCounter : Q;
  pendingRepeat : bool;
  _paused : bool;
  _wasPlaying : bool;
  _pendingStop : Z;
  _pendingStopValue : PendingValue;
  emitted : list Emitted;
  console : list string
}.

Definition set_parent (v : GameObject) (c : Component) : Component :=
  mkComponent v (animationManager c) (isPlaying c) (hasStarted c)
    (currentAnim c) (currentFrame c) (nextAnim c) (nextAnimsQueue c)
    (timeScale c) (frameRate c) (duration c) (msPerFrame c)
    (skipMissedFrames c) (delay c) (repeat c) (repeatDelay c) (yoyo c)
    (showOnStart c) (hideOnComplete c) (forward c) (inReverse c)
    (accumulator c) (nextTick c) (delayCounter c) (repeatCounter c)
    (pendingRepeat c) (_paused c) (_wasPlaying c) (_pendingStop c)
    (_pendingStopValue c) (emitted c) (console c).

Definition set_isPlaying (v : bool) (c : Component) : Component :=
  mkComponent (parent c) (animationManager c) v (hasStarted c) (currentAnim c)
    (currentFrame c) (nextAnim c) (nextAnimsQueue c) (timeScale c)
    (frameRate c) (duration c) (msPerFrame c) (skipMissedFrames c) (delay c)
    (repeat c) (repeatDelay c) (yoyo c) (showOnStart c) (hideOnComplete c)
    (forward c) (inReverse c) (accumulator c) (nextTick c) (delayCounter c)
    (repeatCounter c) (pendingRepeat c) (_paused c) (_wasPlaying c)
    (_pendingStop c) (_pendingStopValue c) (emitted c) (console c).

Definition set_hasStarted (v : bool) (c : Component) : Component :=
  mkComponent (parent c) (animationManager c) (isPlaying c) v (currentAnim c)
    (currentFrame c) (nextAnim c) (nextAnimsQueue c) (timeScale c)
    (frameRate c) (duration c) (msPerFrame c) (skipMissedFrames c) (delay c)
    (repeat c) (repeatDelay c) (yoyo c) (showOnStart c) (hideOnComplete c)
    (forward c) (inReverse c) (accumulator c) (nextTick c) (delayCounter c)
    (repeatCounter c) (pendingRepeat c) (_paused c) (_wasPlaying c)
    (_pendingStop c) (_pendingStopValue c) (emitted c) (console c).

Definition set_currentAnim (v : option AnimationDef) (c : Component) : Component :=
  mkComponent (parent c) (animationManager c) (isPlaying c) (hasStarted c) v
    (currentFrame c) (nextAnim c) (nextAnimsQueue c) (timeScale c)
    (frameRate c) (duration c) (msPerFrame c) (skipMissedFrames c) (delay c)
    (repeat c) (repeatDelay c) (yoyo c) (showOnStart c) (hideOnComplete c)
    (forward c) (inReverse c) (accumulator c) (nextTick c) (delayCounter c)
    (repeatCounter c) (pendingRepeat c) (_paused c) (_wasPlaying c)
    (_pendingStop c) (_pendingStopValue c) (emitted c) (console c).

Definition set_currentFrame (v : FrameSlot) (c : Component) : Component :=
  mkComponent (parent c) (animationManager c) (isPlaying c) (hasStarted c)
    (currentAnim c) v (nextAnim c) (nextAnimsQueue c) (timeScale c)
    (frameRate c) (duration c) (msPerFrame c) (skipMissedFrames c) (delay c)
    (repeat c) (repeatDelay c) (yoyo c) (showOnStart c) (hideOnComplete c)
    (forward c) (inReverse c) (accumulator c) (nextTick c) (delayCounter c)
    (repeatCounter c) (pendingRepeat c) (_paused c) (_wasPlaying c)
    (_pendingStop c) (_pendingStopValue c) (emitted c) (console c).

Definition set_nextAnim (v : NextAnim) (c : Component) : Component :=
  mkComponent (parent c) (animationManager c) (isPlaying c) (hasStarted c)
    (currentAnim c) (currentFrame c) v (nextAnimsQueue c) (timeScale c)
    (frameRate c) (duration c) (msPerFrame c) (skipMissedFrames c) (delay c)
    (repeat c) (repeatDelay c) (yoyo c) (showOnStart c) (hideOnComplete c)
    (forward c) (inReverse c) (accumulator c) (nextTick c) (delayCounter c)
    (repeatCounter c) (pendingRepeat c) (_paused c) (_wasPlaying c)
    (_pendingStop c) (_pendingStopValue c) (emitted c) (console c).

Definition set_nextAnimsQueue (v : list PlayKey) (c : Component) : Component :=
  mkComponent (parent c) (animationManager c) (isPlaying c) (hasStarted c)
    (currentAnim c) (currentFrame c) (nextAnim c) v (timeScale c)
    (frameRate c) (duration c) (msPerFrame c) (skipMissedFrames c) (delay c)
    (repeat c) (repeatDelay c) (yoyo c) (showOnStart c) (hideOnComplete c)
    (forward c) (inReverse c) (accumulator c) (nextTick c) (delayCounter c)
    (repeatCounter c) (pendingRepeat c) (_paused c) (_wasPlaying c)
    (_pendingStop c) (_pendingStopValue c) (emitted c) (console c).

Definition set_timeScale (v : Q) (c : Component) : Component :=
  mkComponent (parent c) (animationManager c) (isPlaying c) (hasStarted c)
    (currentAnim c) (currentFrame c) (nextAnim c) (nextAnimsQueue c) v
    (frameRate c) (duration c) (msPerFrame c) (skipMissedFrames c) (delay c)
    (repeat c) (repeatDelay c) (yoyo c) (showOnStart c) (hideOnComplete c)
    (forward c) (inReverse c) (accumulator c) (nextTick c) (delayCounter c)
    (repeatCounter c) (pendingRepeat c) (_paused c) (_wasPlaying c)
    (_pendingStop c) (_pendingStopValue c) (emitted c) (console c).

Definition set_frameRate (v : Q) (c : Component) : Component :=
  mkComponent (parent c) (animationManager c) (isPlaying c) (hasStarted c)
    (currentAnim c) (currentFrame c) (nextAnim c) (nextAnimsQueue c)
    (timeScale c) v (duration c) (msPerFrame c) (skipMissedFrames c) (delay c)
    (repeat c) (repeatDelay c) (yoyo c) (showOnStart c) (hideOnComplete c)
    (forward c) (inReverse c) (accumulator c) (nextTick c) (delayCounter c)
    (repeatCounter c) (pendingRepeat c) (_paused c) (_wasPlaying c)
    (_pendingStop c) (_pendingStopValue c) (emitted c) (console c).

Definition set_duration (v : Q) (c : Component) : Component :=
  mkComponent (parent c) (animationManager c) (isPlaying c) (hasStarted c)
    (currentAnim c) (currentFrame c) (nextAnim c) (nextAnimsQueue c)
    (timeScale c) (frameRate c) v (msPerFrame c) (skipMissedFrames c)
    (delay c) (repeat c) (repeatDelay c) (yoyo c) (showOnStart c)
    (hideOnComplete c) (forward c) (inReverse c) (accumulator c) (nextTick c)
    (delayCounter c) (repeatCounter c) (pendingRepeat c) (_paused c)
    (_wasPlaying c) (_pendingStop c) (_pendingStopValue c) (emitted c)
    (console c).

Definition set_msPerFrame (v : Q) (c : Component) : Component :=
  mkComponent (parent c) (animationManager c) (isPlaying c) (hasStarted c)
    (currentAnim c) (currentFrame c) (nextAnim c) (nextAnimsQueue c)
    (timeScale c) (frameRate c) (duration c) v (skipMissedFrames c) (delay c)
    (repeat c) (repeatDelay c) (yoyo c) (showOnStart c) (hideOnComplete c)
    (forward c) (inReverse c) (accumulator c) (nextTick c) (delayCounter c)
    (repeatCounter c) (pendingRepeat c) (_paused c) (_wasPlaying c)
    (_pendingStop c) (_pendingStopValue c) (emitted c) (console c).

Definition set_skipMissedFrames (v : bool) (c : Component) : Component :=
  mkComponent (parent c) (animationManager c) (isPlaying c) (hasStarted c)
    (currentAnim c) (currentFrame c) (nextAnim c) (nextAnimsQueue c)
    (timeScale c) (frameRate c) (duration c) (msPerFrame c) v (delay c)
    (repeat c) (repeatDelay c) (yoyo c) (showOnStart c) (hideOnComplete c)
    (forward c) (inReverse c) (accumulator c) (nextTick c) (delayCounter c)
    (repeatCounter c) (pendingRepeat c) (_paused c) (_wasPlaying c)
    (_pendingStop c) (_pendingStopValue c) (emitted c) (console c).

Definition set_delay (v : Q) (c : Component) : Component :=
  mkComponent (parent c) (animationManager c) (isPlaying c) (hasStarted c)
    (currentAnim c) (currentFrame c) (nextAnim c) (nextAnimsQueue c)
    (timeScale c) (frameRate c) (duration c) (msPerFrame c)
    (skipMissedFrames c) v (repeat c) (repeatDelay c) (yoyo c) (showOnStart c)
    (hideOnComplete c) (forward c) (inReverse c) (accumulator c) (nextTick c)
    (delayCounter c) (repeatCounter c) (pendingRepeat c) (_paused c)
    (_wasPlaying c) (_pendingStop c) (_pendingStopValue c) (emitted c)
    (console c).

Definition set_repeat (v : Q) (c : Component) : Component :=
  mkComponent (parent c) (animationManager c) (isPlaying c) (hasStarted c)
    (currentAnim c) (currentFrame c) (nextAnim c) (nextAnimsQueue c)
    (timeScale c) (frameRate c) (duration c) (msPerFrame c)
    (skipMissedFrames c) (delay c) v (repeatDelay c) (yoyo c) (showOnStart c)
    (hideOnComplete c) (forward c) (inReverse c) (accumulator c) (nextTick c)
    (delayCounter c) (repeatCounter c) (pendingRepeat c) (_paused c)
    (_wasPlaying c) (_pendingStop c) (_pendingStopValue c) (emitted c)
    (console c).

Definition set_repeatDelay (v : Q) (c : Component) : Component :=
  mkComponent (parent c) (animationManager c) (isPlaying c) (hasStarted c)
    (currentAnim c) (currentFrame c) (nextAnim c) (nextAnimsQueue c)
    (timeScale c) (frameRate c) (duration c) (msPerFrame c)
    (skipMissedFrames c) (delay c) (repeat c) v (yoyo c) (showOnStart c)
    (hideOnComplete c) (forward c) (inReverse c) (accumulator c) (nextTick c)
    (delayCounter c) (repeatCounter c) (pendingRepeat c) (_paused c)
    (_wasPlaying c) (_pendingStop c) (_pendingStopValue c) (emitted c)
    (console c).

Definition set_yoyo (v : bool) (c : Component) : Component :=
  mkComponent (parent c) (animationManager c) (isPlaying c) (hasStarted c)
    (currentAnim c) (currentFrame c) (nextAnim c) (nextAnimsQueue c)
    (timeScale c) (frameRate c) (duration c) (msPerFrame c)
    (skipMissedFrames c) (delay c) (repeat c) (repeatDelay c) v
    (showOnStart c) (hideOnComplete c) (forward c) (inReverse c)
    (accumulator c) (nextTick c) (delayCounter c) (repeatCounter c)
    (pendingRepeat c) (_paused c) (_wasPlaying c) (_pendingStop c)
    (_pendingStopValue c) (emitted c) (console c).

Definition set_showOnStart (v : bool) (c : Component) : Component :=
  mkComponent (parent c) (animationManager c) (isPlaying c) (hasStarted c)
    (currentAnim c) (currentFrame c) (nextAnim c) (nextAnimsQueue c)
    (timeScale c) (frameRate c) (duration c) (msPerFrame c)
    (skipMissedFrames c) (delay c) (repeat c) (repeatDelay c) (yoyo c) v
    (hideOnComplete c) (forward c) (inReverse c) (accumulator c) (nextTick c)
    (delayCounter c) (repeatCounter c) (pendingRepeat c) (_paused c)
    (_wasPlaying c) (_pendingStop c) (_pendingStopValue c) (emitted c)
    (console c).

Definition set_hideOnComplete (v : bool) (c : Component) : Component :=
  mkComponent (parent c) (animationManager c) (isPlaying c) (hasStarted c)
    (currentAnim c) (currentFrame c) (nextAnim c) (nextAnimsQueue c)
    (timeScale c) (frameRate c) (duration c) (msPerFrame c)
    (skipMissedFrames c) (delay c) (repeat c) (repeatDelay c) (yoyo c)
    (showOnStart c) v (forward c) (inReverse c) (accumulator c) (nextTick c)
    (delayCounter c) (repeatCounter c) (pendingRepeat c) (_paused c)
    (_wasPlaying c) (_pendingStop c) (_pendingStopValue c) (emitted c)
    (console c).

Definition set_forward (v : bool) (c : Component) : Component :=
  mkComponent (parent c) (animationManager c) (isPlaying c) (hasStarted c)
    (currentAnim c) (currentFrame c) (nextAnim c) (nextAnimsQueue c)
    (timeScale c) (frameRate c) (duration c) (msPerFrame c)
    (skipMissedFrames c) (delay c) (repeat c) (repeatDelay c) (yoyo c)
    (showOnStart c) (hideOnComplete c) v (inReverse c) (accumulator c)
    (nextTick c) (delayCounter c) (repeatCounter c) (pendingRepeat c)
    (_paused c) (_wasPlaying c) (_pendingStop c) (_pendingStopValue c)
    (emitted c) (console c).

Definition set_inReverse (v : bool) (c : Component) : Component :=
  mkComponent (parent c) (animationManager c) (isPlaying c) (hasStarted c)
    (currentAnim c) (currentFrame c) (nextAnim c) (nextAnimsQueue c)
    (timeScale c) (frameRate c) (duration c) (msPerFrame c)
    (skipMissedFrames c) (delay c) (repeat c) (repeatDelay c) (yoyo c)
    (showOnStart c) (hideOnComplete c) (forward c) v (accumulator c)
    (nextTick c) (delayCounter c) (repeatCounter c) (pendingRepeat c)
    (_paused c) (_wasPlaying c) (_pendingStop c) (_pendingStopValue c)
    (emitted c) (console c).

Definition set_accumulator (v : Q) (c : Component) : Component :=
  mkComponent (parent c) (animationManager c) (isPlaying c) (hasStarted c)
    (currentAnim c) (currentFrame c) (nextAnim c) (nextAnimsQueue c)
    (timeScale c) (frameRate c) (duration c) (msPerFrame c)
    (skipMissedFrames c) (delay c) (repeat c) (repeatDelay c) (yoyo c)
    (showOnStart c) (hideOnComplete c) (forward c) (inReverse c) v
    (nextTick c) (delayCounter c) (repeatCounter c) (pendingRepeat c)
    (_paused c) (_wasPlaying c) (_pendingStop c) (_pendingStopValue c)
    (emitted c) (console c).

Definition set_nextTick (v : Q) (c : Component) : Component :=
  mkComponent (parent c) (animationManager c) (isPlaying c) (hasStarted c)
    (currentAnim c) (currentFrame c) (nextAnim c) (nextAnimsQueue c)
    (timeScale c) (frameRate c) (duration c) (msPerFrame c)
    (skipMissedFrames c) (delay c) (repeat c) (repeatDelay c) (yoyo c)
    (showOnStart c) (hideOnComplete c) (forward c) (inReverse c)
    (accumulator c) v (delayCounter c) (repeatCounter c) (pendingRepeat c)
    (_paused c) (_wasPlaying c) (_pendingStop c) (_pendingStopValue c)
    (emitted c) (console c).

Definition set_delayCounter (v : Q) (c : Component) : Component :=
  mkComponent (parent c) (animationManager c) (isPlaying c) (hasStarted c)
    (currentAnim c) (currentFrame c) (nextAnim c) (nextAnimsQueue c)
    (timeScale c) (frameRate c) (duration c) (msPerFrame c)
    (skipMissedFrames c) (delay c) (repeat c) (repeatDelay c) (yoyo c)
    (showOnStart c) (hideOnComplete c) (forward c) (inReverse c)
    (accumulator c) (nextTick c) v (repeatCounter c) (pendingRepeat c)
    (_paused c) (_wasPlaying c) (_pendingStop c) (_pendingStopValue c)
    (emitted c) (console c).

Definition set_repeatCounter (v : Q) (c : Component) : Component :=
  mkComponent (parent c) (animationManager c) (isPlaying c) (hasStarted c)
    (currentAnim c) (currentFrame c) (nextAnim c) (nextAnimsQueue c)
    (timeScale c) (frameRate c) (duration c) (msPerFrame c)
    (skipMissedFrames c) (delay c) (repeat c) (repeatDelay c) (yoyo c)
    (showOnStart c) (hideOnComplete c) (forward c) (inReverse c)
    (accumulator c) (nextTick c) (delayCounter c) v (pendingRepeat c)
    (_paused c) (_wasPlaying c) (_pendingStop c) (_pendingStopValue c)
    (emitted c) (console c).

Definition set_pendingRepeat (v : bool) (c : Component) : Component :=
  mkComponent (parent c) (animationManager c) (isPlaying c) (hasStarted c)
    (currentAnim c) (currentFrame c) (nextAnim c) (nextAnimsQueue c)
    (timeScale c) (frameRate c) (duration c) (msPerFrame c)
    (skipMissedFrames c) (delay c) (repeat c) (repeatDelay c) (yoyo c)
    (showOnStart c) (hideOnComplete c) (forward c) (inReverse c)
    (accumulator c) (nextTick c) (delayCounter c) (repeatCounter c) v
    (_paused c) (_wasPlaying c) (_pendingStop c) (_pendingStopValue c)
    (emitted c) (console c).

Definition set__paused (v : bool) (c : Component) : Component :=
  mkComponent (parent c) (animationManager c) (isPlaying c) (hasStarted c)
    (currentAnim c) (currentFrame c) (nextAnim c) (nextAnimsQueue c)
    (timeScale c) (frameRate c) (duration c) (msPerFrame c)
    (skipMissedFrames c) (delay c) (repeat c) (repeatDelay c) (yoyo c)
    (showOnStart c) (hideOnComplete c) (forward c) (inReverse c)
    (accumulator c) (nextTick c) (delayCounter c) (repeatCounter c)
    (pendingRepeat c) v (_wasPlaying c) (_pendingStop c) (_pendingStopValue c)
    (emitted c) (console c).

Definition set__wasPlaying (v : bool) (c : Component) : Component :=
  mkComponent (parent c) (animationManager c) (isPlaying c) (hasStarted c)
    (currentAnim c) (currentFrame c) (nextAnim c) (nextAnimsQueue c)
    (timeScale c) (frameRate c) (duration c) (msPerFrame c)
    (skipMissedFrames c) (delay c) (repeat c) (repeatDelay c) (yoyo c)
    (showOnStart c) (hideOnComplete c) (forward c) (inReverse c)
    (accumulator c) (nextTick c) (delayCounter c) (repeatCounter c)
    (pendingRepeat c) (_paused c) v (_pendingStop c) (_pendingStopValue c)
    (emitted c) (console c).

Definition set__pendingStop (v : Z) (c : Component) : Component :=
  mkComponent (parent c) (animationManager c) (isPlaying c) (hasStarted c)
    (currentAnim c) (currentFrame c) (nextAnim c) (nextAnimsQueue c)
    (timeScale c) (frameRate c) (duration c) (msPerFrame c)
    (skipMissedFrames c) (delay c) (repeat c) (repeatDelay c) (yoyo c)
    (showOnStart c) (hideOnComplete c) (forward c) (inReverse c)
    (accumulator c) (nextTick c) (delayCounter c) (repeatCounter c)
    (pendingRepeat c) (_paused c) (_wasPlaying c) v (_pendingStopValue c)
    (emitted c) (console c).

Definition set__pendingStopValue (v : PendingValue) (c : Component) : Component :=
  mkComponent (parent c) (animationManager c) (isPlaying c) (hasStarted c)
    (currentAnim c) (currentFrame c) (nextAnim c) (nextAnimsQueue c)
    (timeScale c) (frameRate c) (duration c) (msPerFrame c)
    (skipMissedFrames c) (delay c) (repeat c) (repeatDelay c) (yoyo c)
    (showOnStart c) (hideOnComplete c) (forward c) (inReverse c)
    (accumulator c) (nextTick c) (delayCounter c) (repeatCounter c)
    (pendingRepeat c) (_paused c) (_wasPlaying c) (_pendingStop c) v
    (emitted c) (console c).

Definition set_emitted (v : list Emitted) (c : Component) : Component :=
  mkComponent (parent c) (animationManager c) (isPlaying c) (hasStarted c)
    (currentAnim c) (currentFrame c) (nextAnim c) (nextAnimsQueue c)
    (timeScale c) (frameRate c) (duration c) (msPerFrame c)
    (skipMissedFrames c) (delay c) (repeat c) (repeatDelay c) (yoyo c)
    (showOnStart c) (hideOnComplete c) (forward c) (inReverse c)
    (accumulator c) (nextTick c) (delayCounter c) (repeatCounter c)
    (pendingRepeat c) (_paused c) (_wasPlaying c) (_pendingStop c)
    (_pendingStopValue c) v (console c).

Definition set_console (v : list string) (c : Component) : Component :=
  mkComponent (parent c) (animationManager c) (isPlaying c) (hasStarted c)
    (currentAnim c) (currentFrame c) (nextAnim c) (nextAnimsQueue c)
    (timeScale c) (frameRate c) (duration c) (msPerFrame c)
    (skipMissedFrames c) (delay c) (repeat c) (repeatDelay c) (yoyo c)
    (showOnStart c) (hideOnComplete c) (forward c) (inReverse c)
    (accumulator c) (nextTick c) (delayCounter c) (repeatCounter c)
    (pendingRepeat c) (_paused c) (_wasPlaying c) (_pendingStop c)
    (_pendingStopValue c) (emitted c) v.
(** The component as its constructor leaves it. *)
Definition new_component (p : GameObject) (m : list (string * AnimationDef))
  : Component :=
  mkComponent p m false false None FNull NNull [] 1 0 0 0 true 0 0 0 false
    false false true false 0 0 0 0 false false false 0%Z PVUndefined [] [].

(** [typeof key === 'string' ? key : key.key], and the same through
    [GetFastValue(key, 'key', null)] in [load]: the requested key, absent
    when the configuration carries none. *)
Definition requested_key (key : PlayKey) : option string :=
  match key with
  | KString s => Some s
  | KConfig cfg => Cfg.key cfg
  end.

(** [anim.key === animKey] for a key that may be absent. *)
Definition key_is (k : string) (animKey : option string) : bool :=
  match animKey with
  | Some s => String.eqb k s
  | None => false
  end.

(** The key held by a truthy [nextAnim]. *)
Definition next_key (n : NextAnim) : option PlayKey :=
  match n with
  | NKey k => if truthy_next n then Some k else None
  | _ => None
  end.

(** An optional boolean argument whose default is [false]. *)
Definition default_false (b : option bool) : bool :=
  match b with
  | Some v => v
  | None => false
  end.

(** The three notifications of one kind, as [emitEvents] sends them. *)
Definition notifications (k : EventKind) (animKey : string) (f : FrameSlot)
  : list Emitted :=
  [AnimEmit k animKey f; SpriteKeyEmit k animKey f; SpriteEmit k animKey f].

(** ** Sample data for concrete runs

    A registry with a walk cycle of eleven frames ([progress] i/10) that
    repeats five times and an idle loop of three frames, a sprite, and
    collaborators simple enough to follow by hand. *)

Definition sample_frame (base : nat) (total : Z) (i : nat) : AFrame.t :=
  AFrame.mk (base + i)
    (TFrame.mk "atlas" "cell" false 0 0)
    (inject_Z (Z.of_nat i) / inject_Z (total - 1)) false 1.

Definition walk : AnimationDef :=
  Def.mk "a" (map (sample_frame 100 11) (seq 0 11))
    24 0 0 5 0 false false false true false.

Definition idle : AnimationDef :=
  Def.mk "b" (map (sample_frame 200 3) (seq 0 3))
    24 0 0 0 0 false false false true false.

Definition sample_manager : list (string * AnimationDef) :=
  [("a", walk); ("b", idle)].

Definition sample_sprite : GameObject :=
  GO.mk true 1 None None false true [].

Definition fresh : Component := new_component sample_sprite sample_manager.

(** [{ key: 'a', delay: 100 }] and [{ key: 'a', startFrame: 11 }]. *)
Definition delayed_a : PlayKey :=
  KConfig
    (Cfg.mk (Some "a") None None (Some 100) None None None None None None
       None None).

Definition past_end_a : PlayKey :=
  KConfig
    (Cfg.mk (Some "a") None None None None None None None None None None
       (Some 11)).

Definition sample_calculateDuration
  (anim : AnimationDef) (totalFrames duration frameRate : Q) : Q * Q * Q :=
  (frameRate, duration, 1000 / frameRate).

Definition sample_getFirstTick (anim : AnimationDef) (c : Component)
  : Q * Q :=
  (0, msPerFrame c).

(** A frame advance that only moves the threshold on. *)
Definition sample_advance (anim : AnimationDef) (c : Component)
  : Result Component :=
  Ok (set_nextTick (nextTick c + msPerFrame c) c).

(** Modelled from the spec: the Definition's frame-by-progress(0..1) lookup,
    absent from the component's file: the frame whose [progress] lies nearest
    to the fraction, the earlier one on a tie. *)
Fixpoint nearest_frame (best : AFrame.t) (rest : list AFrame.t) (value : Q)
  : AFrame.t :=
  match rest with
  | [] => best
  | f :: rest' =>
      if Qgt_bool (Qabs (AFrame.progress best - value))
                  (Qabs (AFrame.progress f - value))
      then nearest_frame f rest' value
      else nearest_frame best rest' value
  end.

Definition sample_getFrameByProgress (anim : AnimationDef) (value : Q)
  : FrameSlot :=
  match Def.frames anim with
  | [] => FUndefined
  | f :: rest => FObj (nearest_frame f rest value)
  end.

Section Playback.

(** The Definition's side of the interface lives in another file; the
    component only calls it.  [calculateDuration] yields the frame rate,
    duration and ms-per-frame it stores on the component, [getFirstTick]
    the accumulator and next-tick threshold it seeds; the two frame-advance
    algorithms take the component as their cursor. *)
Variable calculateDuration : AnimationDef -> Q -> Q -> Q -> Q * Q * Q.
Variable getFirstTick : AnimationDef -> Component -> Q * Q.
Variable anim_nextFrame : AnimationDef -> Component -> Result Component.
Variable anim_previousFrame : AnimationDef -> Component -> Result Component.
Variable getFrameByProgress : AnimationDef -> Q -> FrameSlot.

(** *** Methods that do not reach [stop] *)

Definition getName (c : Component) : string :=
  match currentAnim c with
  | Some anim => Def.key anim
  | None => ""
  end.

Definition isPaused (c : Component) : bool := _paused c.

Definition getTotalFrames (c : Component) : Q :=
  match currentAnim c with
  | Some anim => def_getTotalFrames anim
  | None => 0
  end.

Definition getProgress (c : Component) : Q :=
  match currentFrame c with
  | FObj frame =>
      let p := AFrame.progress frame in
      if inReverse c then p * (-1) else p
  | _ => 0
  end.

Definition emitEvents (k : EventKind) (c : Component) : Result Component :=
  match currentAnim c with
  | Some anim =>
      Ok (set_emitted
            (emitted c ++ notifications k (Def.key anim) (currentFrame c)) c)
  | None => Throw (TypeError "Cannot read property 'emit' of null")
  end.

(** The writes [setCurrentFrame] makes on the game object: texture and
    frame, crop, size and origin. *)
Definition show_frame (af : AFrame.t) (g : GameObject) : GameObject :=
  let tf := AFrame.frame af in
  let g := GO.set_texture (TFrame.texture tf) g in
  let g := GO.set_frame tf g in
  let g := if GO.isCropped g then GO.call UpdateCropUVs g else g in
  let g := GO.call SetSizeToFrame g in
  if GO._originComponent g
  then if TFrame.customPivot tf
       then GO.call (SetOrigin (TFrame.pivotX tf) (TFrame.pivotY tf)) g
       else GO.call UpdateDisplayOrigin g
  else g.

Definition setCurrentFrame (animationFrame : FrameSlot) (c : Component)
  : Result Component :=
  let c := set_currentFrame animationFrame c in
  match animationFrame with
  | FObj af => Ok (set_parent (show_frame af (parent c)) c)
  | _ => Throw (TypeError "Cannot read property 'frame' of undefined")
  end.

Definition setProgress (value : Q) (c : Component) : Result Component :=
  let value := if negb (forward c) then 1 - value else value in
  match currentAnim c with
  | Some anim => setCurrentFrame (getFrameByProgress anim value) c
  | None =>
      Throw (TypeError "Cannot read property 'getFrameByProgress' of null")
  end.

Definition setRepeat (value : Q) (c : Component) : Component :=
  set_repeatCounter (if Qeq_bool value (-1) then MAX_VALUE else value) c.

Definition handleRepeat (c : Component) : Result Component :=
  emitEvents REPEAT (set_pendingRepeat false c).

Definition handleStop (c : Component) : Result Component :=
  emitEvents STOP (set_isPlaying false (set__pendingStop 0%Z c)).

Definition handleComplete (c : Component) : Result Component :=
  let c := set_isPlaying false (set__pendingStop 0%Z c) in
  let c :=
    if hideOnComplete c
    then set_parent (GO.setVisible false (parent c)) c
    else c in
  emitEvents COMPLETE c.

Definition stopAfterDelay (delay : Q) (c : Component) : Component :=
  set__pendingStopValue (PVNumber delay) (set__pendingStop 1%Z c).

Definition stopAfterRepeat (repeatCount : option Q) (c : Component)
  : Component :=
  let repeatCount :=
    match repeatCount with Some n => n | None => 1 end in
  let repeatCount :=
    if (negb (Qeq_bool (repeatCounter c) (-1))
        && Qgt_bool repeatCount (repeatCounter c))%bool
    then repeatCounter c
    else repeatCount in
  set__pendingStopValue (PVNumber repeatCount) (set__pendingStop 2%Z c).

Definition reverse (c : Component) : Component :=
  if isPlaying c
  then set_forward (negb (forward c)) (set_inReverse (negb (inReverse c)) c)
  else c.

Definition stopOnFrame (frame : AFrame.t) (c : Component) : Component :=
  set__pendingStopValue (PVFrame frame) (set__pendingStop 3%Z c).

(** [chain(key)]: no argument resets the chain; a single key counts as an
    array of one. *)
Fixpoint chain_each (keys : list PlayKey) (c : Component) : Component :=
  match keys with
  | [] => c
  | anim :: rest =>
      chain_each rest
        match nextAnim c with
        | NNull => set_nextAnim (NKey anim) c
        | _ => set_nextAnimsQueue (nextAnimsQueue c ++ [anim]) c
        end
  end.

Definition chain (key : option (list PlayKey)) (c : Component) : Component :=
  match key with
  | None => set_nextAnim NNull (set_nextAnimsQueue [] c)
  | Some keys => chain_each keys c
  end.

Definition nextFrame (c : Component) : Result Component :=
  match currentAnim c with
  | Some anim => anim_nextFrame anim c
  | None => Ok c
  end.

Definition previousFrame (c : Component) : Result Component :=
  match currentAnim c with
  | Some anim => anim_previousFrame anim c
  | None => Ok c
  end.

(** *** Methods that reach [stop]

    [this_stop] is the [this.stop()] a nested call resolves to. *)
Section Dispatch.

Variable this_stop : Component -> Result Component.

Definition updateFrame (animationFrame : FrameSlot) (c : Component)
  : Result Component :=
  c <- setCurrentFrame animationFrame c ;;
  if isPlaying c
  then match animationFrame with
       | FObj af =>
           let c :=
             if AFrame.setAlpha af
             then set_parent (GO.set_alpha (AFrame.alpha af) (parent c)) c
             else c in
           c <- emitEvents UPDATE c ;;
           if (Z.eqb (_pendingStop c) 3
               && pv_is_frame (_pendingStopValue c) af)%bool
           then this_stop c
           else Ok c
       | _ =>
           Throw (TypeError "Cannot read property 'setAlpha' of undefined")
       end
  else Ok c.

Definition handleStart (c : Component) : Result Component :=
  let c :=
    if showOnStart c
    then set_parent (GO.setVisible true (parent c)) c
    else c in
  c <- updateFrame (currentFrame c) c ;;
  emitEvents START (set_hasStarted true c).

Definition load (key : PlayKey) (c : Component) : Result Component :=
  c <- (if isPlaying c then this_stop c else Ok c) ;;
  let animKey := requested_key key in
  match manager_get (animationManager c) animKey with
  | None =>
      Ok (set_console
            (console c ++ ["Missing animation: " ++ show_key animKey]) c)
  | Some anim =>
      let c := set_currentAnim (Some anim) c in
      let totalFrames := def_getTotalFrames anim in
      let frameRate := GetFastValue key Cfg.frameRate (Def.frameRate anim) in
      let duration := GetFastValue key Cfg.duration (Def.duration anim) in
      let r := calculateDuration anim totalFrames duration frameRate in
      let c :=
        set_msPerFrame (snd r)
          (set_duration (snd (fst r)) (set_frameRate (fst (fst r)) c)) in
      let c := set_delay (GetFastValue key Cfg.delay (Def.delay anim)) c in
      let c :=
        set_repeat (GetFastValue key Cfg.repeat (Def.repeat anim)) c in
      let c :=
        set_repeatDelay
          (GetFastValue key Cfg.repeatDelay (Def.repeatDelay anim)) c in
      let c := set_yoyo (GetFastValue key Cfg.yoyo (Def.yoyo anim)) c in
      let c :=
        set_showOnStart
          (GetFastValue key Cfg.showOnStart (Def.showOnStart anim)) c in
      let c :=
        set_hideOnComplete
          (GetFastValue key Cfg.hideOnComplete (Def.hideOnComplete anim))
          c in
      let c :=
        set_skipMissedFrames
          (GetFastValue key Cfg.skipMissedFrames
             (Def.skipMissedFrames anim)) c in
      let c :=
        set_timeScale (GetFastValue key Cfg.timeScale (timeScale c)) c in
      let startFrame := GetFastValue key Cfg.startFrame 0 in
      let startFrame :=
        if Qgt_bool startFrame (def_getTotalFrames anim)
        then 0
        else startFrame in
      let frame := array_index (Def.frames anim) startFrame in
      if (Qeq_bool startFrame 0 && negb (forward c))%bool
      then (* frame = this.getLastFrame(): the component has no such
              method *)
           Throw (TypeError "this.getLastFrame is not a function")
      else Ok (set_currentFrame frame c)
  end.

Definition startAnimation (key : PlayKey) (c : Component)
  : Result Component :=
  c <- load key c ;;
  match currentAnim c with
  | None => Ok c
  | Some anim =>
      let c :=
        set_repeatCounter
          (if Qeq_bool (repeat c) (-1) then MAX_VALUE else repeat c) c in
      let t := getFirstTick anim c in
      let c := set_nextTick (snd t) (set_accumulator (fst t) c) in
      let c := set_isPlaying true c in
      let c := set_pendingRepeat false c in
      let c := set_hasStarted false c in
      let c := set__pendingStop 0%Z c in
      let c := set__pendingStopValue (PVNumber 0) c in
      let c := set__paused false c in
      let c := set_delayCounter (delayCounter c + delay c) c in
      if Qeq_bool (delayCounter c) 0 then handleStart c else Ok c
  end.

(** The test [ignoreIfPlaying && this.isPlaying &&
    this.currentAnim.key === animKey] that opens [play] and
    [playReverse]. *)
Definition already_playing (key : PlayKey) (ignoreIfPlaying : option bool)
  (c : Component) : Result bool :=
  if (default_false ignoreIfPlaying && isPlaying c)%bool
  then match currentAnim c with
       | Some anim => Ok (key_is (Def.key anim) (requested_key key))
       | None => Throw (TypeError "Cannot read property 'key' of null")
       end
  else Ok false.

Definition play (key : PlayKey) (ignoreIfPlaying : option bool)
  (c : Component) : Result Component :=
  skip <- already_playing key ignoreIfPlaying c ;;
  if (skip : bool)
  then Ok c
  else
    let c := set_inReverse false (set_forward true c) in
    let c := set__wasPlaying true (set__paused false c) in
    startAnimation key c.

Definition playReverse (key : PlayKey) (ignoreIfPlaying : option bool)
  (c : Component) : Result Component :=
  skip <- already_playing key ignoreIfPlaying c ;;
  if (skip : bool)
  then Ok c
  else
    let c := set_inReverse true (set_forward false c) in
    let c := set__wasPlaying true (set__paused false c) in
    startAnimation key c.

(** If there is a [nextAnim], move it to the front of the queue. *)
Definition requeue_next (c : Component) : Component :=
  match next_key (nextAnim c) with
  | Some k => set_nextAnimsQueue (k :: nextAnimsQueue c) c
  | None => c
  end.

Definition playAfterDelay (key : PlayKey) (delay : Q) (c : Component)
  : Result Component :=
  if negb (isPlaying c)
  then play key (Some true) (set_delayCounter delay c)
  else
    let c := requeue_next c in
    let c := set_nextAnim (NKey key) c in
    Ok (set__pendingStopValue (PVNumber delay) (set__pendingStop 1%Z c)).

Definition playAfterRepeat (key : PlayKey) (repeatCount : option Q)
  (c : Component) : Result Component :=
  let repeatCount :=
    match repeatCount with Some n => n | None => 1 end in
  if negb (isPlaying c)
  then play key None c
  else
    let c := requeue_next c in
    let repeatCount :=
      if (negb (Qeq_bool (repeatCounter c) (-1))
          && Qgt_bool repeatCount (repeatCounter c))%bool
      then repeatCounter c
      else repeatCount in
    let c := set_nextAnim (NKey key) c in
    Ok (set__pendingStopValue (PVNumber repeatCount)
          (set__pendingStop 2%Z c)).

Definition restart (includeDelay resetRepeats : option bool)
  (c : Component) : Result Component :=
  let includeDelay := default_false includeDelay in
  let resetRepeats := default_false resetRepeats in
  match currentAnim c with
  | None => Ok c
  | Some anim =>
      let c :=
        if resetRepeats
        then set_repeatCounter
               (if Qeq_bool (repeat c) (-1) then MAX_VALUE else repeat c) c
        else c in
      let t := getFirstTick anim c in
      let c := set_nextTick (snd t) (set_accumulator (fst t) c) in
      c <- emitEvents RESTART c ;;
      let c := set_isPlaying true c in
      let c := set_pendingRepeat false c in
      let c := set_hasStarted (negb includeDelay) c in
      let c := set__pendingStop 0%Z c in
      let c := set__pendingStopValue (PVNumber 0) c in
      let c := set__paused false c in
      updateFrame (array_index (Def.frames anim) 0) c
  end.

Definition complete (c : Component) : Result Component :=
  let c := set_isPlaying false (set__pendingStop 0%Z c) in
  c <- (match currentAnim c with
        | Some _ => handleComplete c
        | None => Ok c
        end) ;;
  match next_key (nextAnim c) with
  | Some key =>
      let c :=
        match nextAnimsQueue c with
        | [] => set_nextAnim NNull c
        | _ :: _ =>
            let s := shift (nextAnimsQueue c) in
            set_nextAnimsQueue (snd s) (set_nextAnim (fst s) c)
        end in
      play key None c
  | None => Ok c
  end.

(** The body of [stop]. *)
Definition stopBody (c : Component) : Result Component :=
  let c := set_isPlaying false (set__pendingStop 0%Z c) in
  c <- (match currentAnim c with
        | Some _ => handleStop c
        | None => Ok c
        end) ;;
  match next_key (nextAnim c) with
  | Some key =>
      let s := shift (nextAnimsQueue c) in
      let c := set_nextAnimsQueue (snd s) (set_nextAnim (fst s) c) in
      play key None c
  | None => Ok c
  end.

Definition remove (key : string) (animation : option AnimationDef)
  (c : Component) : Result Component :=
  let animation :=
    match animation with
    | Some a => Some a
    | None => currentAnim c
    end in
  if isPlaying c
  then match animation, currentAnim c with
       | Some a, Some cur =>
           if String.eqb (Def.key a) (Def.key cur)
           then
             c <- this_stop c ;;
             match currentAnim c with
             | Some cur' =>
                 setCurrentFrame (array_index (Def.frames cur') 0) c
             | None =>
                 Throw (TypeError "Cannot read property 'frames' of null")
             end
           else Ok c
       | _, _ => Throw (TypeError "Cannot read property 'key' of null")
       end
  else Ok c.

Definition pause (atFrame : option FrameSlot) (c : Component)
  : Result Component :=
  let c :=
    if negb (_paused c)
    then set_isPlaying false
           (set__wasPlaying (isPlaying c) (set__paused true c))
    else c in
  match atFrame with
  | Some frame => updateFrame frame c
  | None => Ok c
  end.

Definition resume (fromFrame : option FrameSlot) (c : Component)
  : Result Component :=
  let c :=
    if _paused c
    then set_isPlaying (_wasPlaying c) (set__paused false c)
    else c in
  match fromFrame with
  | Some frame => updateFrame frame c
  | None => Ok c
  end.

(** The part of [update] after the pending-stop test: start handling
    while the delay runs, frame advance afterwards. *)
Definition update_advance (anim : AnimationDef) (c : Component)
  : Result Component :=
  if negb (hasStarted c)
  then
    if Qge_bool (accumulator c) (delayCounter c)
    then handleStart
           (set_accumulator (accumulator c - delayCounter c) c)
    else Ok c
  else
    if Qge_bool (accumulator c) (nextTick c)
    then
      if forward c
      then anim_nextFrame anim c
      else anim_previousFrame anim c
    else Ok c.

Definition update (time delta : Q) (c : Component) : Result Component :=
  match currentAnim c with
  | Some anim =>
      if (negb (isPlaying c) || Def.paused anim)%bool
      then Ok c
      else
        let c :=
          set_accumulator (accumulator c + delta * timeScale c) c in
        if Z.eqb (_pendingStop c) 1
        then
          let c :=
            set__pendingStopValue (pv_sub (_pendingStopValue c) delta) c in
          if pv_le0 (_pendingStopValue c)
          then this_stop c
          else update_advance anim c
        else update_advance anim c
  | None => Ok c
  end.

End Dispatch.

(** [stop], with its nested [this.stop()] bounded by [fuel]. *)
Fixpoint stop (fuel : nat) (c : Component) : Result Component :=
  match fuel with
  | O => OutOfFuel
  | S n => stopBody (stop n) c
  end.

(** A run of [update] calls, one per delta, stopping at the first fault. *)
Fixpoint updates (fuel : nat) (deltas : list Q) (c : Component)
  : Result Component :=
  match deltas with
  | [] => Ok c
  | delta :: rest =>
      c <- update (stop fuel) 0 delta c ;; updates fuel rest c
  end.

(** *** Vocabulary of the statements *)

(** What a call establishes: it does not exhaust the fuel, and a normal
    return satisfies [P].  A fault promises nothing. *)
Definition on_return (P : Component -> Prop) (r : Result Component) : Prop :=
  match r with
  | Ok c => P c
  | Throw _ => True
  | OutOfFuel => False
  end.

(** The call returns normally, in a component that satisfies [P]. *)
Definition returns (r : Result Component) (P : Component -> Prop) : Prop :=
  match r with
  | Ok c => P c
  | _ => False
  end.

(** The accumulator after a run of [update] calls that only accumulate. *)
Definition elapsed (c : Component) (deltas : list Q) : Q :=
  fold_left (fun acc delta => acc + delta * timeScale c) deltas
    (accumulator c).

(** Every call of the run leaves the accumulator below the threshold. *)
Fixpoint stays_below (threshold scale acc : Q) (deltas : list Q) : Prop :=
  match deltas with
  | [] => True
  | delta :: rest =>
      acc + delta * scale < threshold
      /\ stays_below threshold scale (acc + delta * scale) rest
  end.

(** The rational is a finite IEEE 754 double: [m * 2 ^ e] with
    [|m| < 2 ^ 53] and [-1074 <= e <= 971].  On the reduced fraction: the
    denominator is a power of two no larger than [2 ^ 1074], the numerator
    has at most 53 significant bits, and the value is below [2 ^ 1024]. *)
Definition is_double (q : Q) : bool :=
  let r := Qred q in
  let n := Z.abs (Qnum r) in
  let d := Z.pos (Qden r) in
  let k := Z.log2 d in
  ((d =? 2 ^ k)%Z
   && (k <=? 1074)%Z
   && (n mod 2 ^ Z.max 0 (Z.log2 n - 52) =? 0)%Z
   && (Z.log2 n - k <=? 1023)%Z)%bool.

(** Every [delta] of the run, every product [delta * timeScale] and every
    value the accumulator takes is a double. *)
Fixpoint exact_steps (scale acc : Q) (deltas : list Q) : bool :=
  match deltas with
  | [] => true
  | delta :: rest =>
      (is_double delta
       && is_double (delta * scale)
       && is_double (acc + delta * scale)
       && exact_steps scale (acc + delta * scale) rest)%bool
  end.

(** The arithmetic of a run of [update] calls against [threshold] is exact:
    the threshold, the time scale and the accumulator are doubles, and so
    is every intermediate result of [accumulator += delta * timeScale].
    An IEEE operation whose exact result is a double returns it, so on
    such a run the source computes the sums and takes the branches of the
    model. *)
Definition exact_run (threshold : Q) (c : Component) (deltas : list Q)
  : bool :=
  (is_double threshold
   && is_double (timeScale c)
   && is_double (accumulator c)
   && exact_steps (timeScale c) (accumulator c) deltas)%bool.

(** The state [stop] leaves when an animation is loaded and nothing is
    chained. *)
Definition stopped (anim : AnimationDef) (c : Component) : Component :=
  let c := set_isPlaying false (set__pendingStop 0%Z c) in
  set_emitted
    (emitted c ++ notifications STOP (Def.key anim) (currentFrame c)) c.

(** The state [handleStart] leaves when [anim] plays, no stop is armed and
    the current frame is [f]. *)
Definition started (anim : AnimationDef) (f : AFrame.t) (c : Component)
  : Component :=
  let c :=
    if showOnStart c
    then set_parent (GO.setVisible true (parent c)) c
    else c in
  let c := set_parent (show_frame f (parent c)) (set_currentFrame (FObj f) c) in
  let c :=
    if AFrame.setAlpha f
    then set_parent (GO.set_alpha (AFrame.alpha f) (parent c)) c
    else c in
  let c :=
    set_emitted
      (emitted c ++ notifications UPDATE (Def.key anim) (FObj f)) c in
  let c := set_hasStarted true c in
  set_emitted (emitted c ++ notifications START (Def.key anim) (FObj f)) c.

(** The warning [load] prints for a key that does not resolve. *)
Definition warned (key : PlayKey) (c : Component) : Component :=
  set_console
    (console c ++ ["Missing animation: " ++ show_key (requested_key key)]) c.

(** The control state every path through [stop] agrees on. *)
Definition settled (c c' : Component) : Prop :=
  _pendingStop c' = 0%Z /\ animationManager c' = animationManager c.

(** The fields a frame write and its notifications leave alone. *)
Definition frame_write (c c' : Component) : Prop :=
  _pendingStop c' = _pendingStop c
  /\ animationManager c' = animationManager c
  /\ currentAnim c' = currentAnim c
  /\ isPlaying c' = isPlaying c
  /\ delayCounter c' = delayCounter c.

(** The component is playing [anim] and still waits out its delay, with
    no stop armed. *)
Definition waiting (anim : AnimationDef) (c : Component) : Prop :=
  currentAnim c = Some anim
  /\ isPlaying c = true
  /\ Def.paused anim = false
  /\ hasStarted c = false
  /\ _pendingStop c = 0%Z.

(** Where [chain] leaves the slot and the queue: the first key takes a
    slot that holds [null], every other key joins the queue. *)
Definition chained (keys : list PlayKey) (c : Component)
  : NextAnim * list PlayKey :=
  match nextAnim c, keys with
  | NNull, k :: rest => (NKey k, (nextAnimsQueue c ++ rest)%list)
  | _, _ => (nextAnim c, (nextAnimsQueue c ++ keys)%list)
  end.

(** [update] has nothing to do: not playing, nothing loaded, or the
    Definition paused. *)
Definition idle_for_update (c : Component) : Prop :=
  isPlaying c = false
  \/ match currentAnim c with
     | Some anim => Def.paused anim = true
     | None => True
     end.

(** What a frame write and its notifications leave alone besides
    [frame_write]: the chain, the counters, the direction and the timers. *)
Definition cursor_kept (c c' : Component) : Prop :=
  frame_write c c'
  /\ nextAnim c' = nextAnim c
  /\ nextAnimsQueue c' = nextAnimsQueue c
  /\ repeatCounter c' = repeatCounter c
  /\ repeat c' = repeat c
  /\ delay c' = delay c
  /\ forward c' = forward c
  /\ inReverse c' = inReverse c
  /\ accumulator c' = accumulator c
  /\ nextTick c' = nextTick c
  /\ console c' = console c
  /\ _paused c' = _paused c
  /\ _wasPlaying c' = _wasPlaying c.

(** The component is coherent: it plays only with a Definition loaded, and
    a pause that interrupted playback has one loaded too. *)
Definition coherent (c : Component) : Prop :=
  (isPlaying c = true -> currentAnim c <> None)
  /\ (_paused c = true -> _wasPlaying c = true -> currentAnim c <> None).

(** [c'] is coherent and has not lost the Definition [c] had loaded. *)
Definition sound (c c' : Component) : Prop :=
  coherent c' /\ (currentAnim c <> None -> currentAnim c' <> None).

(** A method keeps coherence. *)
Definition keeps_coherent (method : Component -> Result Component) : Prop :=
  forall c, coherent c -> on_return (sound c) (method c).

(** The start frame [load] selects for a request, before the reverse
    case: the requested index, or 0 when it is larger than the frame
    count. *)
Definition start_index (key : PlayKey) (anim : AnimationDef) : Q :=
  if Qgt_bool (GetFastValue key Cfg.startFrame 0) (def_getTotalFrames anim)
  then 0
  else GetFastValue key Cfg.startFrame 0.

(** The repeat counter a start derives from the repeat value. *)
Definition repeats_from (r : Q) : Q :=
  if Qeq_bool r (-1) then MAX_VALUE else r.

(** *** Proof steps

    [fields] reduces the projections of updated components and nothing
    else, so that tests on data keep the shape hypotheses have. *)

Ltac fields :=
  cbn [
        parent animationManager isPlaying hasStarted currentAnim
        currentFrame nextAnim nextAnimsQueue timeScale frameRate duration
        msPerFrame skipMissedFrames delay repeat repeatDelay yoyo
        showOnStart hideOnComplete forward inReverse accumulator nextTick
        delayCounter repeatCounter pendingRepeat _paused _wasPlaying
        _pendingStop _pendingStopValue emitted console set_parent
        set_isPlaying set_hasStarted set_currentAnim set_currentFrame
        set_nextAnim set_nextAnimsQueue set_timeScale set_frameRate
        set_duration set_msPerFrame set_skipMissedFrames set_delay
        set_repeat set_repeatDelay set_yoyo set_showOnStart
        set_hideOnComplete set_forward set_inReverse set_accumulator
        set_nextTick set_delayCounter set_repeatCounter set_pendingRepeat
        set__paused set__wasPlaying set__pendingStop
        set__pendingStopValue set_emitted set_console].

Ltac fields_in H :=
  cbn [
        parent animationManager isPlaying hasStarted currentAnim
        currentFrame nextAnim nextAnimsQueue timeScale frameRate duration
        msPerFrame skipMissedFrames delay repeat repeatDelay yoyo
        showOnStart hideOnComplete forward inReverse accumulator nextTick
        delayCounter repeatCounter pendingRepeat _paused _wasPlaying
        _pendingStop _pendingStopValue emitted console set_parent
        set_isPlaying set_hasStarted set_currentAnim set_currentFrame
        set_nextAnim set_nextAnimsQueue set_timeScale set_frameRate
        set_duration set_msPerFrame set_skipMissedFrames set_delay
        set_repeat set_repeatDelay set_yoyo set_showOnStart
        set_hideOnComplete set_forward set_inReverse set_accumulator
        set_nextTick set_delayCounter set_repeatCounter set_pendingRepeat
        set__paused set__wasPlaying set__pendingStop
        set__pendingStopValue set_emitted set_console] in H.

(** *** Composition rules *)

Lemma on_return_bind (P Q : Component -> Prop) m k :
  on_return P m ->
  (forall c, P c -> on_return Q (k c)) ->
  on_return Q (c <- m ;; k c).
Proof.
  destruct m as [c| |]; simpl; intros Hm Hk; auto.
Qed.

Lemma on_return_weaken (P Q : Component -> Prop) r :
  (forall c, P c -> Q c) -> on_return P r -> on_return Q r.
Proof.
  destruct r; simpl; auto.
Qed.

Lemma on_return_ok (P : Component -> Prop) r c :
  on_return P r -> r = Ok c -> P c.
Proof.
  intros H E. rewrite E in H. exact H.
Qed.

(** *** What the frame writes leave alone *)

Lemma emitEvents_keeps k c :
  on_return (frame_write c) (emitEvents k c).
Proof.
  unfold emitEvents, frame_write.
  destruct (currentAnim c) eqn:E; simpl; auto 6.
Qed.

Lemma updateFrame_unarmed this_stop f c :
  _pendingStop c = 0%Z ->
  on_return (frame_write c) (updateFrame this_stop f c).
Proof.
  intros H0. unfold updateFrame, setCurrentFrame, frame_write.
  destruct f as [| |af]; simpl; auto.
  destruct (isPlaying c) eqn:Ep; simpl; auto 6.
  unfold emitEvents.
  destruct (AFrame.setAlpha af); simpl;
    destruct (currentAnim c) eqn:Ea; simpl; auto;
    rewrite H0; simpl; auto 6.
Qed.

Lemma handleStart_unarmed this_stop c :
  _pendingStop c = 0%Z ->
  on_return (frame_write c) (handleStart this_stop c).
Proof.
  intros H0. unfold handleStart.
  eapply on_return_bind.
  - apply updateFrame_unarmed. destruct (showOnStart c); exact H0.
  - intros c1 (Hp & Hm & Ha & Hi & Hd).
    eapply on_return_weaken; [| apply emitEvents_keeps ].
    unfold frame_write. simpl.
    intros c2 (Hp2 & Hm2 & Ha2 & Hi2 & Hd2).
    rewrite Hp2, Hm2, Ha2, Hi2, Hd2, Hp, Hm, Ha, Hi, Hd.
    destruct (showOnStart c); auto 6.
Qed.

(** *** [load] and the start sequence *)

Lemma load_keeps this_stop key c :
  (isPlaying c = true -> forall c0, on_return (settled c0) (this_stop c0)) ->
  on_return
    (fun c' =>
       animationManager c' = animationManager c
       /\ (_pendingStop c' = 0%Z
           \/ (isPlaying c = false /\ _pendingStop c' = _pendingStop c)))
    (load this_stop key c).
Proof.
  intros Hs. unfold load.
  eapply on_return_bind
    with (P := fun c1 =>
                 animationManager c1 = animationManager c
                 /\ (_pendingStop c1 = 0%Z
                     \/ (isPlaying c = false
                         /\ _pendingStop c1 = _pendingStop c))).
  - destruct (isPlaying c) eqn:Ep.
    + eapply on_return_weaken; [| apply (Hs eq_refl c) ].
      intros c1 [H1 H2]. auto.
    + simpl. auto.
  - intros c1 (Hm & Hp).
    destruct (manager_get (animationManager c1) (requested_key key)).
    + match goal with
      | |- context [if ?b then Throw _ else _] => destruct b
      end; simpl; auto.
    + simpl. auto.
Qed.

Lemma startAnimation_settles this_stop key c :
  (isPlaying c = true -> forall c0, on_return (settled c0) (this_stop c0)) ->
  on_return
    (fun c' =>
       animationManager c' = animationManager c
       /\ (_pendingStop c' = 0%Z
           \/ (currentAnim c' = None /\ isPlaying c = false
               /\ _pendingStop c' = _pendingStop c)))
    (startAnimation this_stop key c).
Proof.
  intros Hs. unfold startAnimation.
  eapply on_return_bind; [ apply load_keeps; exact Hs |].
  intros c1 (Hm & Hp). simpl.
  destruct (currentAnim c1) eqn:Ea.
  - match goal with
    | |- context [if ?b then handleStart _ _ else _] => destruct b
    end.
    + eapply on_return_weaken; [| apply handleStart_unarmed; reflexivity ].
      unfold frame_write. simpl. intros c2 (Hp2 & Hm2 & _). split.
      * congruence.
      * left. exact Hp2.
    + simpl. auto.
  - simpl. split; [ exact Hm |]. destruct Hp as [Hp | [Hi Hp]]; auto.
Qed.

Lemma play_settles this_stop key c :
  (isPlaying c = true -> forall c0, on_return (settled c0) (this_stop c0)) ->
  on_return
    (fun c' =>
       animationManager c' = animationManager c
       /\ (_pendingStop c' = 0%Z
           \/ (currentAnim c' = None /\ isPlaying c = false
               /\ _pendingStop c' = _pendingStop c)))
    (play this_stop key None c).
Proof.
  intros Hs. unfold play, already_playing. simpl.
  apply (startAnimation_settles this_stop key
           (set__wasPlaying true
              (set__paused false (set_inReverse false (set_forward true c))))).
  exact Hs.
Qed.

Lemma playReverse_settles this_stop key c :
  (isPlaying c = true -> forall c0, on_return (settled c0) (this_stop c0)) ->
  on_return
    (fun c' =>
       animationManager c' = animationManager c
       /\ (_pendingStop c' = 0%Z
           \/ (currentAnim c' = None /\ isPlaying c = false
               /\ _pendingStop c' = _pendingStop c)))
    (playReverse this_stop key None c).
Proof.
  intros Hs. unfold playReverse, already_playing. simpl.
  apply (startAnimation_settles this_stop key
           (set__wasPlaying true
              (set__paused false (set_inReverse true (set_forward false c))))).
  exact Hs.
Qed.

(** *** [stop] and [complete] *)

Lemma handleStop_keeps c :
  on_return
    (fun c' => settled c c' /\ isPlaying c' = false)
    (handleStop c).
Proof.
  unfold handleStop.
  eapply on_return_weaken; [| apply emitEvents_keeps ].
  unfold frame_write, settled. simpl. intros c1 (Hp & Hm & _ & Hi & _). auto.
Qed.

Lemma stopBody_settles this_stop c :
  on_return (settled c) (stopBody this_stop c).
Proof.
  unfold stopBody.
  eapply on_return_bind
    with (P := fun c1 => settled c c1 /\ isPlaying c1 = false).
  - simpl. destruct (currentAnim c).
    + eapply on_return_weaken; [| apply handleStop_keeps ].
      unfold settled. fields. intros c1 H. exact H.
    + unfold settled. simpl. auto.
  - intros c1 ((Hp & Hm) & Hi).
    destruct (next_key (nextAnim c1)) as [k|].
    + eapply on_return_weaken; [| apply play_settles ].
      * unfold settled. simpl. intros c2 (Hm2 & Hp2). split.
        -- destruct Hp2 as [Hp2 | (_ & _ & Hp2)]; congruence.
        -- congruence.
      * fields. intros Habs. rewrite Hi in Habs. discriminate.
    + simpl. split; assumption.
Qed.

Lemma stop_settles n c :
  on_return (settled c) (stop (S n) c).
Proof.
  simpl. apply stopBody_settles.
Qed.

Lemma complete_settles this_stop c :
  on_return (settled c) (complete this_stop c).
Proof.
  unfold complete.
  eapply on_return_bind
    with (P := fun c1 => settled c c1 /\ isPlaying c1 = false).
  - simpl. destruct (currentAnim c).
    + unfold handleComplete.
      eapply on_return_weaken; [| apply emitEvents_keeps ].
      unfold frame_write, settled.
      fields.
      destruct (hideOnComplete c); fields;
        intros c1 (Hp & Hm & _ & Hi & _); auto.
    + unfold settled. simpl. auto.
  - intros c1 ((Hp & Hm) & Hi).
    destruct (next_key (nextAnim c1)) as [k|].
    + eapply on_return_weaken; [| apply play_settles ].
      * unfold settled.
        destruct (nextAnimsQueue c1); simpl; intros c2 (Hm2 & Hp2); split;
          try congruence;
          destruct Hp2 as [Hp2 | (_ & _ & Hp2)]; congruence.
      * destruct (nextAnimsQueue c1); fields; intros Habs;
          rewrite Hi in Habs; discriminate.
    + simpl. split; assumption.
Qed.

Lemma restart_settles this_stop includeDelay resetRepeats c :
  on_return
    (fun c' =>
       animationManager c' = animationManager c
       /\ (currentAnim c <> None -> _pendingStop c' = 0%Z))
    (restart this_stop includeDelay resetRepeats c).
Proof.
  unfold restart.
  destruct (currentAnim c) as [anim|] eqn:Ea.
  - eapply on_return_bind.
    + apply emitEvents_keeps.
    + unfold frame_write. intros c1 (Hp & Hm & _).
      eapply on_return_weaken; [| apply updateFrame_unarmed; reflexivity ].
      unfold frame_write. simpl. intros c2 (Hp2 & Hm2 & _).
      rewrite Hm2, Hm.
      destruct (default_false resetRepeats); simpl; auto.
  - simpl. split; [ reflexivity | congruence ].
Qed.

(** *** The delay before the start *)

Lemma show_frame_frame af g :
  GO.frame (show_frame af g) = Some (AFrame.frame af).
Proof.
  unfold show_frame.
  destruct g as [v a t fr cropped origin cl]; simpl.
  destruct cropped, origin, (TFrame.customPivot (AFrame.frame af));
    reflexivity.
Qed.

Lemma set_accumulator_same c :
  set_accumulator (accumulator c) c = c.
Proof.
  destruct c. reflexivity.
Qed.

Lemma updates_app fuel l1 l2 c :
  updates fuel (l1 ++ l2) c = (c1 <- updates fuel l1 c ;; updates fuel l2 c1).
Proof.
  revert c. induction l1 as [|d l1 IH]; intros c; simpl.
  - reflexivity.
  - destruct (update (stop fuel) 0 d c); simpl; auto.
Qed.

Lemma elapsed_snoc c deltas delta :
  elapsed c (deltas ++ [delta]) = elapsed c deltas + delta * timeScale c.
Proof.
  unfold elapsed. rewrite fold_left_app. reflexivity.
Qed.

Lemma update_waiting this_stop anim time delta c :
  waiting anim c ->
  accumulator c + delta * timeScale c < delayCounter c ->
  update this_stop time delta c
  = Ok (set_accumulator (accumulator c + delta * timeScale c) c).
Proof.
  intros (Ha & Hp & Hq & Hs & H0) Hlt.
  unfold update, update_advance. rewrite Ha, Hp, Hq. simpl.
  rewrite H0, Hs. simpl.
  unfold Qge_bool.
  destruct (Qle_bool (delayCounter c)
              (accumulator c + delta * timeScale c)) eqn:E.
  - apply Qle_bool_iff in E. exfalso.
    apply (Qlt_not_le _ _ Hlt). exact E.
  - reflexivity.
Qed.

Lemma updates_waiting fuel anim deltas :
  forall c,
    waiting anim c ->
    stays_below (delayCounter c) (timeScale c) (accumulator c) deltas ->
    updates fuel deltas c = Ok (set_accumulator (elapsed c deltas) c).
Proof.
  induction deltas as [|d rest IH]; intros c Hw Hb.
  - simpl. unfold elapsed. simpl. rewrite set_accumulator_same. reflexivity.
  - destruct Hb as [Hlt Hb]. simpl.
    rewrite (update_waiting (stop fuel) anim 0 d c Hw Hlt). simpl.
    rewrite IH.
    + reflexivity.
    + destruct Hw as (Ha & Hp & Hq & Hs & H0). repeat split; assumption.
    + exact Hb.
Qed.

Lemma update_to_advance this_stop anim time delta c :
  currentAnim c = Some anim ->
  isPlaying c = true ->
  Def.paused anim = false ->
  _pendingStop c = 0%Z ->
  update this_stop time delta c
  = update_advance this_stop anim
      (set_accumulator (accumulator c + delta * timeScale c) c).
Proof.
  intros Ha Hp Hq H0. unfold update. rewrite Ha, Hp, Hq.
  change (_pendingStop (set_accumulator (accumulator c + delta * timeScale c) c))
    with (_pendingStop c).
  rewrite H0. reflexivity.
Qed.

Lemma update_advance_starts this_stop anim c :
  hasStarted c = false ->
  delayCounter c <= accumulator c ->
  update_advance this_stop anim c
  = handleStart this_stop
      (set_accumulator (accumulator c - delayCounter c) c).
Proof.
  intros Hs Hle. unfold update_advance, Qge_bool.
  apply Qle_bool_iff in Hle. rewrite Hs, Hle. reflexivity.
Qed.

Lemma handleStart_started this_stop anim f c :
  currentAnim c = Some anim ->
  isPlaying c = true ->
  _pendingStop c = 0%Z ->
  currentFrame c = FObj f ->
  handleStart this_stop c = Ok (started anim f c).
Proof.
  intros Ha Hp H0 Hf.
  destruct c; cbv [currentAnim isPlaying _pendingStop currentFrame] in *.
  subst.
  destruct f as [uid tf pr alpha_set al].
  destruct showOnStart0, alpha_set; vm_compute; reflexivity.
Qed.

Lemma started_fields anim f c :
  hasStarted (started anim f c) = true
  /\ accumulator (started anim f c) = accumulator c
  /\ emitted (started anim f c)
     = (emitted c ++ notifications UPDATE (Def.key anim) (FObj f)
                  ++ notifications START (Def.key anim) (FObj f))%list
  /\ currentFrame (started anim f c) = FObj f
  /\ GO.frame (parent (started anim f c)) = Some (AFrame.frame f).
Proof.
  unfold started.
  destruct (showOnStart c), (AFrame.setAlpha f);
    repeat split; try reflexivity;
    try (cbv zeta; apply show_frame_frame);
    try (symmetry; apply app_assoc).
Qed.

Lemma update_crossing this_stop anim f time delta c :
  waiting anim c ->
  currentFrame c = FObj f ->
  delayCounter c <= accumulator c + delta * timeScale c ->
  update this_stop time delta c
  = Ok (started anim f
          (set_accumulator
             (accumulator c + delta * timeScale c - delayCounter c) c)).
Proof.
  intros (Ha & Hp & Hq & Hs & H0) Hf Hle.
  rewrite (update_to_advance this_stop anim time delta c Ha Hp Hq H0).
  rewrite update_advance_starts; [| exact Hs | exact Hle ].
  rewrite (handleStart_started this_stop anim f); auto.
Qed.

Lemma startAnimation_delayed this_stop key c0 c anim :
  startAnimation this_stop key c0 = Ok c ->
  currentAnim c = Some anim ->
  0 < delayCounter c ->
  hasStarted c = false /\ isPlaying c = true /\ _pendingStop c = 0%Z
  /\ exists c1,
       load this_stop key c0 = Ok c1
       /\ delayCounter c = delayCounter c1 + delay c
       /\ delay c = delay c1.
Proof.
  intros H Ha Hd. unfold startAnimation in H.
  destruct (load this_stop key c0) as [c1| |] eqn:El; simpl in H;
    try discriminate.
  destruct (currentAnim c1) as [a1|] eqn:Ea1.
  - match type of H with
    | context [if ?b then handleStart _ _ else _] => destruct b eqn:Eq
    end.
    + exfalso.
      match type of H with
      | handleStart _ ?x = _ =>
          pose proof (handleStart_unarmed this_stop x eq_refl) as Hk
      end.
      rewrite H in Hk. unfold on_return, frame_write in Hk.
      destruct Hk as (_ & _ & _ & _ & Hk). fields_in Hk.
      apply Qeq_bool_iff in Eq. fields_in Eq. rewrite Hk in Hd. lra.
    + injection H as H. subst c. simpl. repeat split.
      exists c1. repeat split.
  - injection H as H. subst c. congruence.
Qed.

Lemma load_idle_delayCounter this_stop key c c1 :
  isPlaying c = false ->
  load this_stop key c = Ok c1 ->
  delayCounter c1 = delayCounter c.
Proof.
  intros Hp H. unfold load in H. rewrite Hp in H. cbn [bind] in H.
  destruct (manager_get (animationManager c) (requested_key key)).
  - match type of H with
    | context [if ?b then Throw _ else _] => destruct b
    end; [ discriminate |].
    injection H as H. subst c1. reflexivity.
  - injection H as H. subst c1. reflexivity.
Qed.

(** *** [stop] with nothing chained *)

Lemma stop_unchained fuel anim c :
  currentAnim c = Some anim ->
  next_key (nextAnim c) = None ->
  stop (S fuel) c = Ok (stopped anim c).
Proof.
  intros Ha Hn. cbn [stop]. unfold stopBody, handleStop, emitEvents.
  fields. rewrite Ha. cbn [bind]. fields. rewrite Hn.
  destruct c; vm_compute; reflexivity.
Qed.

Lemma stop_unloaded fuel c :
  currentAnim c = None ->
  next_key (nextAnim c) = None ->
  stop (S fuel) c = Ok (set_isPlaying false (set__pendingStop 0%Z c)).
Proof.
  intros Ha Hn. cbn [stop]. unfold stopBody.
  fields. rewrite Ha. cbn [bind]. fields. rewrite Hn. reflexivity.
Qed.

(** *** Doubles *)

(** What [is_double] accepts is a double. *)
Lemma is_double_sound q :
  is_double q = true ->
  exists m e : Z,
    (Z.abs m < 2 ^ 53)%Z /\ (-1074 <= e <= 971)%Z
    /\ q == inject_Z m * 2 ^ e.
Proof.
  unfold is_double. intros H.
  apply andb_prop in H. destruct H as [H H4].
  apply andb_prop in H. destruct H as [H H3].
  apply andb_prop in H. destruct H as [H1 H2].
  apply Z.eqb_eq in H1. apply Z.leb_le in H2.
  apply Z.eqb_eq in H3. apply Z.leb_le in H4.
  pose proof (Qred_correct q) as Hq.
  destruct (Qred q) as [num den]. cbn [Qnum Qden] in *.
  set (k := Z.log2 (Z.pos den)) in *.
  set (n := Z.abs num) in *.
  set (t := Z.max 0 (Z.log2 n - 52)) in *.
  assert (Hk : (0 <= k)%Z) by apply Z.log2_nonneg.
  assert (Ht : (0 <= t)%Z) by (unfold t; lia).
  assert (Hpt : (0 < 2 ^ t)%Z) by (apply Z.pow_pos_nonneg; lia).
  assert (Hn : (0 <= n)%Z) by (unfold n; lia).
  exists (num / 2 ^ t)%Z, (t - k)%Z.
  assert (Hdiv : (num = 2 ^ t * (num / 2 ^ t))%Z).
  { apply Z.div_exact; [ lia |].
    apply Z.mod_divide in H3; [| lia ].
    apply Z.mod_divide; [ lia |].
    apply Z.divide_abs_r. exact H3. }
  split; [| split ].
  - assert (Hb : (n < 2 ^ t * 2 ^ 53)%Z).
    { destruct (Z.eq_dec n 0) as [E | E].
      - rewrite E. lia.
      - pose proof (Z.log2_spec n ltac:(lia)) as [_ Hs].
        rewrite <- Z.pow_add_r by lia.
        eapply Z.lt_le_trans; [ exact Hs |].
        apply Z.pow_le_mono_r; unfold t; lia. }
    assert (Habs : (n = 2 ^ t * Z.abs (num / 2 ^ t))%Z).
    { unfold n. rewrite Hdiv at 1. rewrite Z.abs_mul.
      rewrite (Z.abs_eq (2 ^ t)) by lia. reflexivity. }
    rewrite Habs in Hb. nia.
  - unfold t. lia.
  - rewrite <- Hq. unfold Z.sub.
    rewrite Qpower_plus by discriminate.
    rewrite Qpower_opp.
    change 2 with (inject_Z 2).
    rewrite <- !Zpower_Qpower by lia.
    rewrite <- H1.
    rewrite (Qmake_Qdiv num den).
    rewrite Hdiv at 1. rewrite inject_Z_mult.
    field. discriminate.
Qed.

(** *** The claims *)

(** C1. An animation started with a positive total delay [D] (the
    [delayCounter] the start sequence leaves: what the caller put there
    plus the delay loaded with the animation) waits: every run of [update]
    calls that keeps the accumulator (the seed of [getFirstTick] plus
    [delta * timeScale] per call) below [D] only accumulates, so it fires
    no notification and leaves the displayed frame alone; the [update] call
    at which the accumulator reaches [D] runs [handleStart] once (one set
    of start notifications) and keeps the overflow beyond [D] in the
    accumulator.  The accumulator is the one the source computes: the
    runs are those whose sums, products and final difference are exact
    in doubles. *)
Theorem delay_gates_start fuel0 fuel key c0 c anim f :
  startAnimation (stop fuel0) key c0 = Ok c ->
  currentAnim c = Some anim ->
  Def.paused anim = false ->
  currentFrame c = FObj f ->
  0 < delayCounter c ->
  hasStarted c = false
  /\ (isPlaying c0 = false ->
      is_double (delayCounter c0 + delay c) = true ->
      delayCounter c = delayCounter c0 + delay c)
  /\ (forall deltas,
        exact_run (delayCounter c) c deltas = true ->
        stays_below (delayCounter c) (timeScale c) (accumulator c) deltas ->
        updates fuel deltas c = Ok (set_accumulator (elapsed c deltas) c))
  /\ (forall deltas delta,
        exact_run (delayCounter c) c (deltas ++ [delta]) = true ->
        is_double (elapsed c (deltas ++ [delta]) - delayCounter c) = true ->
        stays_below (delayCounter c) (timeScale c) (accumulator c) deltas ->
        delayCounter c <= elapsed c (deltas ++ [delta]) ->
        returns (updates fuel (deltas ++ [delta]) c)
          (fun c' =>
             hasStarted c' = true
             /\ accumulator c'
                = elapsed c (deltas ++ [delta]) - delayCounter c
             /\ emitted c'
                = (emitted c
                   ++ notifications UPDATE (Def.key anim) (FObj f)
                   ++ notifications START (Def.key anim) (FObj f))%list
             /\ currentFrame c' = FObj f
             /\ GO.frame (parent c') = Some (AFrame.frame f))).
Proof.
  intros Hstart Ha Hq Hf Hd.
  destruct (startAnimation_delayed _ _ _ _ _ Hstart Ha Hd)
    as (Hs & Hp & H0 & c1 & Hload & Hdc & _).
  assert (Hw : waiting anim c) by (repeat split; assumption).
  split; [ exact Hs |]. split; [| split ].
  - intros Hidle _. rewrite Hdc.
    rewrite (load_idle_delayCounter _ _ _ _ Hidle Hload). reflexivity.
  - intros deltas _ Hb. apply (updates_waiting fuel anim); assumption.
  - intros deltas delta _ _ Hb Hle.
    rewrite updates_app, (updates_waiting fuel anim deltas c Hw Hb).
    cbn [bind updates].
    rewrite elapsed_snoc in Hle |- *.
    rewrite (update_crossing (stop fuel) anim f).
    + cbn [bind returns].
      destruct (started_fields anim f
                  (set_accumulator
                     (accumulator (set_accumulator (elapsed c deltas) c)
                      + delta
                        * timeScale (set_accumulator (elapsed c deltas) c)
                      - delayCounter
                          (set_accumulator (elapsed c deltas) c))
                     (set_accumulator (elapsed c deltas) c)))
        as (S1 & S2 & S3 & S4 & S5).
      repeat split; assumption.
    + destruct Hw as (W1 & W2 & W3 & W4 & W5). repeat split; assumption.
    + exact Hf.
    + exact Hle.
Qed.

(** C2. In [update], pending-stop mode 1 takes the raw [delta] off the
    pending-stop value.  When the result is at most 0, [update] is exactly
    [stop()] on the component so accumulated: neither frame-advance
    algorithm nor the start handling of [update] takes part (the right-hand
    side does not mention them), and with nothing chained the tick ends
    stopped, with the stop notifications as its only events.  Otherwise
    the tick goes on to the start/advance step with the decremented
    value. *)
Theorem after_ms_stop_preempts fuel anim time delta v c :
  currentAnim c = Some anim ->
  isPlaying c = true ->
  Def.paused anim = false ->
  _pendingStop c = 1%Z ->
  _pendingStopValue c = PVNumber v ->
  let c1 :=
    set__pendingStopValue (PVNumber (v - delta))
      (set_accumulator (accumulator c + delta * timeScale c) c) in
  (v - delta <= 0 ->
   update (stop (S fuel)) time delta c = stop (S fuel) c1
   /\ on_return (fun c' => _pendingStop c' = 0%Z)
        (update (stop (S fuel)) time delta c)
   /\ (next_key (nextAnim c) = None ->
       returns (update (stop (S fuel)) time delta c)
         (fun c' =>
            isPlaying c' = false
            /\ hasStarted c' = hasStarted c
            /\ currentFrame c' = currentFrame c
            /\ parent c' = parent c
            /\ emitted c'
               = (emitted c
                  ++ notifications STOP (Def.key anim) (currentFrame c))%list)))
  /\ (0 < v - delta ->
      update (stop (S fuel)) time delta c
      = update_advance (stop (S fuel)) anim c1).
Proof.
  intros Ha Hp Hq H1 Hv c1.
  assert (Hu : update (stop (S fuel)) time delta c
               = if Qle_bool (v - delta) 0
                 then stop (S fuel) c1
                 else update_advance (stop (S fuel)) anim c1).
  { unfold update. rewrite Ha, Hp, Hq. cbn [negb orb]. fields.
    rewrite H1, Hv. reflexivity. }
  split.
  - intros Hle. apply Qle_bool_iff in Hle. rewrite Hle in Hu.
    split; [ exact Hu |]. split.
    + rewrite Hu. eapply on_return_weaken; [| apply stop_settles ].
      intros c' [H _]. exact H.
    + intros Hn. rewrite Hu.
      rewrite (stop_unchained fuel anim c1 Ha Hn).
      unfold returns, stopped, c1. fields. repeat split.
  - intros Hlt. rewrite Hu.
    destruct (Qle_bool (v - delta) 0) eqn:E; [| reflexivity ].
    apply Qle_bool_iff in E. lra.
Qed.

(** C3. [stopAfterRepeat] and (while playing) [playAfterRepeat] arm
    pending-stop mode 2 with the requested count, cut down to the
    remaining [repeatCounter] when it is larger; the counter is taken as
    finite unless it is [-1]. *)
Theorem after_repeat_count_is_clamped this_stop key repeatCount c :
  ~ repeatCounter c == -1 ->
  (_pendingStop (stopAfterRepeat (Some repeatCount) c) = 2%Z
   /\ (repeatCounter c < repeatCount ->
       _pendingStopValue (stopAfterRepeat (Some repeatCount) c)
       = PVNumber (repeatCounter c))
   /\ (repeatCount <= repeatCounter c ->
       _pendingStopValue (stopAfterRepeat (Some repeatCount) c)
       = PVNumber repeatCount))
  /\ (isPlaying c = true ->
      returns (playAfterRepeat this_stop key (Some repeatCount) c)
        (fun c' =>
           _pendingStop c' = 2%Z
           /\ (repeatCounter c < repeatCount ->
               _pendingStopValue c' = PVNumber (repeatCounter c))
           /\ (repeatCount <= repeatCounter c ->
               _pendingStopValue c' = PVNumber repeatCount))).
Proof.
  intros Hfin.
  assert (E1 : Qeq_bool (repeatCounter c) (-1) = false).
  { destruct (Qeq_bool (repeatCounter c) (-1)) eqn:E; [| reflexivity ].
    apply Qeq_bool_iff in E. contradiction. }
  assert (Hclamp :
            (if (negb (Qeq_bool (repeatCounter c) (-1))
                 && Qgt_bool repeatCount (repeatCounter c))%bool
             then repeatCounter c else repeatCount)
            = if Qle_bool repeatCount (repeatCounter c)
              then repeatCount else repeatCounter c).
  { rewrite E1. unfold Qgt_bool. cbn [negb andb].
    destruct (Qle_bool repeatCount (repeatCounter c)); reflexivity. }
  assert (Hcases :
            forall x : Q,
              x = (if Qle_bool repeatCount (repeatCounter c)
                   then repeatCount else repeatCounter c) ->
              (repeatCounter c < repeatCount ->
               PVNumber x = PVNumber (repeatCounter c))
              /\ (repeatCount <= repeatCounter c ->
                  PVNumber x = PVNumber repeatCount)).
  { intros x ->.
    destruct (Qle_bool repeatCount (repeatCounter c)) eqn:E; split;
      intros H; try reflexivity.
    - apply Qle_bool_iff in E. lra.
    - apply Qle_bool_iff in H. congruence. }
  split.
  - unfold stopAfterRepeat. fields. split; [ reflexivity |].
    apply Hcases. exact Hclamp.
  - intros Hp. unfold playAfterRepeat. rewrite Hp. cbn [negb returns].
    fields. split; [ reflexivity |].
    apply Hcases.
    replace (repeatCounter (requeue_next c)) with (repeatCounter c).
    + exact Hclamp.
    + unfold requeue_next. destruct (next_key (nextAnim c)); reflexivity.
Qed.

(** C10. With nothing loaded the read accessors return their neutral
    values: [getName] the empty string, [getTotalFrames] and [getProgress]
    zero. *)
Theorem accessors_when_unloaded c :
  currentAnim c = None ->
  currentFrame c = FNull ->
  getName c = "" /\ getTotalFrames c = 0 /\ getProgress c = 0.
Proof.
  intros Ha Hf. unfold getName, getTotalFrames, getProgress.
  rewrite Ha, Hf. repeat split.
Qed.

(** C8, as the code has it.  When the remove notification names the loaded
    Definition (by key, or names none) while the component plays, nothing
    is chained and the Definition has a first frame, [stop()] runs (stop
    notifications, not playing any more) and the current frame becomes
    that first frame, without a fault; when the component is not playing,
    or the removed Definition has another key, the handler changes
    nothing. *)
Theorem remove_stops_on_first_frame fuel key cur first rest c :
  currentAnim c = Some cur ->
  Def.frames cur = first :: rest ->
  (isPlaying c = false ->
   forall animation, remove (stop (S fuel)) key animation c = Ok c)
  /\ (isPlaying c = true ->
      forall other,
        String.eqb (Def.key other) (Def.key cur) = false ->
        remove (stop (S fuel)) key (Some other) c = Ok c)
  /\ (isPlaying c = true ->
      next_key (nextAnim c) = None ->
      forall animation,
        match animation with
        | Some a => String.eqb (Def.key a) (Def.key cur) = true
        | None => True
        end ->
        returns (remove (stop (S fuel)) key animation c)
          (fun c' =>
             isPlaying c' = false
             /\ currentAnim c' = Some cur
             /\ currentFrame c' = FObj first
             /\ GO.frame (parent c') = Some (AFrame.frame first)
             /\ emitted c'
                = (emitted c
                   ++ notifications STOP (Def.key cur) (currentFrame c))%list)).
Proof.
  intros Ha Hfr. split; [| split ].
  - intros Hp animation. unfold remove. rewrite Hp. reflexivity.
  - intros Hp other Hk. unfold remove. rewrite Hp, Ha, Hk. reflexivity.
  - intros Hp Hn animation Hsame.
    assert (Hrun :
              remove (stop (S fuel)) key animation c
              = (c1 <- stop (S fuel) c ;;
                 match currentAnim c1 with
                 | Some cur' =>
                     setCurrentFrame (array_index (Def.frames cur') 0) c1
                 | None =>
                     Throw
                       (TypeError "Cannot read property 'frames' of null")
                 end)).
    { unfold remove. rewrite Hp, Ha.
      destruct animation as [a|].
      - rewrite Hsame. reflexivity.
      - rewrite String.eqb_refl. reflexivity. }
    rewrite Hrun, (stop_unchained fuel cur c Ha Hn). cbn [bind].
    unfold stopped. fields. rewrite Ha, Hfr.
    change (array_index (first :: rest) 0) with (FObj first).
    unfold setCurrentFrame. cbn [returns]. fields.
    repeat split; [ exact Ha | apply show_frame_frame ].
Qed.

(** C9, as the code has it.  [stop] and [complete] always return with
    pending-stop mode 0; [restart] does whenever an animation is loaded
    (with none loaded it returns at once and resets nothing); a start
    through [play], [playReverse] or [startAnimation] does whenever it
    returns with an animation loaded.  None of them runs out of fuel. *)
Theorem pending_stop_is_reset fuel c :
  on_return (fun c' => _pendingStop c' = 0%Z) (stop (S fuel) c)
  /\ on_return (fun c' => _pendingStop c' = 0%Z)
       (complete (stop (S fuel)) c)
  /\ (forall includeDelay resetRepeats,
        on_return
          (fun c' => currentAnim c <> None -> _pendingStop c' = 0%Z)
          (restart (stop (S fuel)) includeDelay resetRepeats c))
  /\ (forall key,
        on_return
          (fun c' => currentAnim c' <> None -> _pendingStop c' = 0%Z)
          (startAnimation (stop (S fuel)) key c))
  /\ (forall key,
        on_return
          (fun c' => currentAnim c' <> None -> _pendingStop c' = 0%Z)
          (play (stop (S fuel)) key None c))
  /\ (forall key,
        on_return
          (fun c' => currentAnim c' <> None -> _pendingStop c' = 0%Z)
          (playReverse (stop (S fuel)) key None c)).
Proof.
  assert (Hstop : forall c0, on_return (settled c0) (stop (S fuel) c0))
    by (intros c0; apply stop_settles).
  assert (Hloaded :
            forall c' : Component,
              animationManager c' = animationManager c
              /\ (_pendingStop c' = 0%Z
                  \/ (currentAnim c' = None /\ isPlaying c = false
                      /\ _pendingStop c' = _pendingStop c)) ->
              currentAnim c' <> None -> _pendingStop c' = 0%Z).
  { intros c' (_ & [H | (H & _)]) Hne; [ exact H | contradiction ]. }
  repeat split.
  - eapply on_return_weaken; [| apply stop_settles ]. intros c' [H _]. exact H.
  - eapply on_return_weaken; [| apply complete_settles ].
    intros c' [H _]. exact H.
  - intros includeDelay resetRepeats.
    eapply on_return_weaken; [| apply restart_settles ].
    intros c' [_ H]. exact H.
  - intros key. eapply on_return_weaken; [ exact Hloaded |].
    apply startAnimation_settles. intros _. exact Hstop.
  - intros key. eapply on_return_weaken; [ exact Hloaded |].
    apply play_settles. intros _. exact Hstop.
  - intros key. eapply on_return_weaken; [ exact Hloaded |].
    apply playReverse_settles. intros _. exact Hstop.
Qed.

(** *** Faults and sign of the progress accessors *)

Lemma setProgress_unloaded value c :
  currentAnim c = None ->
  setProgress value c
  = Throw (TypeError "Cannot read property 'getFrameByProgress' of null").
Proof.
  intros Ha. unfold setProgress. rewrite Ha. reflexivity.
Qed.

Lemma getProgress_in_reverse value anim f c :
  currentAnim c = Some anim ->
  forward c = false ->
  inReverse c = true ->
  getFrameByProgress anim (1 - value) = FObj f ->
  0 <= AFrame.progress f ->
  returns (setProgress value c)
    (fun c' =>
       currentFrame c' = FObj f
       /\ getProgress c' = AFrame.progress f * (-1)
       /\ getProgress c' <= 0).
Proof.
  intros Ha Hfw Hrev Hf Hpos. unfold setProgress. rewrite Ha, Hfw. cbn [negb].
  rewrite Hf. unfold setCurrentFrame, getProgress. cbn [returns]. fields.
  rewrite Hrev. repeat split. lra.
Qed.

(** *** The start frame [load] selects *)

Lemma Qred_inject_Z z :
  Qred (inject_Z z) = inject_Z z.
Proof.
  unfold Qred, inject_Z.
  pose proof (Z.ggcd_gcd z 1) as Hg.
  pose proof (Z.ggcd_correct_divisors z 1) as Hd.
  destruct (Z.ggcd z 1) as [g [aa bb]]. cbn [fst snd] in *.
  rewrite Z.gcd_1_r in Hg. subst g. destruct Hd as [Hz Hb].
  rewrite Z.mul_1_l in Hz, Hb. subst aa bb. reflexivity.
Qed.

Lemma array_index_length l :
  array_index l (inject_Z (Z.of_nat (List.length l))) = FUndefined.
Proof.
  unfold array_index. rewrite Qred_inject_Z. cbn [Qnum Qden inject_Z].
  rewrite Nat2Z.id.
  replace (nth_error l (List.length l)) with (@None AFrame.t).
  - destruct (Pos.eqb 1 1 && Z.leb 0 (Z.of_nat (List.length l)))%bool;
      reflexivity.
  - symmetry. apply nth_error_None. apply Nat.le_refl.
Qed.

Lemma load_past_end this_stop key anim c :
  isPlaying c = false ->
  manager_get (animationManager c) (requested_key key) = Some anim ->
  forward c = true ->
  GetFastValue key Cfg.startFrame 0 = def_getTotalFrames anim ->
  returns (load this_stop key c)
    (fun c' => currentAnim c' = Some anim /\ currentFrame c' = FUndefined).
Proof.
  intros Hp Hm Hfw Hsf. unfold load. rewrite Hp. cbn [bind].
  rewrite Hm. cbv zeta. fields. rewrite Hsf, Hfw.
  assert (E : Qgt_bool (def_getTotalFrames anim) (def_getTotalFrames anim)
              = false).
  { unfold Qgt_bool.
    replace (Qle_bool (def_getTotalFrames anim) (def_getTotalFrames anim))
      with true; [ reflexivity |].
    symmetry. apply Qle_bool_iff. apply Qle_refl. }
  rewrite E. cbn [negb]. rewrite Bool.andb_false_r.
  cbn [returns]. fields. split; [ reflexivity |].
  apply array_index_length.
Qed.

Lemma load_reverse_at_start_faults this_stop key anim c :
  isPlaying c = false ->
  manager_get (animationManager c) (requested_key key) = Some anim ->
  forward c = false ->
  GetFastValue key Cfg.startFrame 0 == 0 ->
  load this_stop key c
  = Throw (TypeError "this.getLastFrame is not a function").
Proof.
  intros Hp Hm Hfw Hsf. unfold load. rewrite Hp. cbn [bind].
  rewrite Hm. cbv zeta. fields. rewrite Hfw. cbn [negb].
  destruct (Qgt_bool (GetFastValue key Cfg.startFrame 0)
              (def_getTotalFrames anim)).
  - reflexivity.
  - apply Qeq_bool_iff in Hsf. rewrite Hsf. reflexivity.
Qed.

(** ** Further properties of the component *)

(** *** Pause and resume *)

Lemma update_idle this_stop time delta c :
  idle_for_update c ->
  update this_stop time delta c = Ok c.
Proof.
  unfold idle_for_update, update. intros [Hp | Ha].
  - rewrite Hp. destruct (currentAnim c); reflexivity.
  - destruct (currentAnim c) as [anim|]; [| reflexivity ].
    rewrite Ha. rewrite Bool.orb_true_r. reflexivity.
Qed.

Lemma updates_idle fuel deltas c :
  idle_for_update c ->
  updates fuel deltas c = Ok c.
Proof.
  intros H. induction deltas as [|d rest IH]; cbn [updates].
  - reflexivity.
  - rewrite (update_idle (stop fuel) 0 d c H). cbn [bind]. exact IH.
Qed.

(** X1. A component that is not playing, has nothing loaded, or whose
    Definition is paused ignores time: every run of [update] calls returns
    it as it was. *)
Theorem updates_ignore_idle fuel deltas c :
  idle_for_update c ->
  updates fuel deltas c = Ok c.
Proof.
  intros H. destruct deltas as [|d rest]; cbn [updates].
  - reflexivity.
  - rewrite (update_idle (stop fuel) 0 d c H). cbn [bind].
    apply updates_idle. exact H.
Qed.

(** X2. [pause()] and [resume()] are idempotent: a second call in a row
    changes nothing. *)
Theorem pause_resume_idempotent this_stop c :
  (c1 <- pause this_stop None c ;; pause this_stop None c1)
  = pause this_stop None c
  /\ (c1 <- resume this_stop None c ;; resume this_stop None c1)
     = resume this_stop None c.
Proof.
  unfold pause, resume. split.
  - destruct (_paused c) eqn:E; cbn [negb bind]; fields.
    + rewrite E. reflexivity.
    + reflexivity.
  - destruct (_paused c) eqn:E; cbn [negb bind]; fields.
    + reflexivity.
    + rewrite E. reflexivity.
Qed.

(** X3. [pause()] followed by [resume()] on a component that was not
    paused restores it: only the private was-playing flag differs, and it
    holds the playing state. *)
Theorem pause_then_resume this_stop c :
  _paused c = false ->
  (c1 <- pause this_stop None c ;; resume this_stop None c1)
  = Ok (set__wasPlaying (isPlaying c) c).
Proof.
  intros H. unfold pause, resume. rewrite H. cbn [negb bind]. fields.
  destruct c. cbv [_paused] in H. subst. vm_compute. reflexivity.
Qed.

(** X4. Pausing a component that was not paused, with or without a frame
    to show, fires no notification, records the playing state and freezes
    the component: every later run of [update] calls leaves it as it is. *)
Theorem pause_is_silent_and_freezes this_stop fuel atFrame c c1 :
  _paused c = false ->
  pause this_stop atFrame c = Ok c1 ->
  emitted c1 = emitted c
  /\ isPlaying c1 = false
  /\ _paused c1 = true
  /\ _wasPlaying c1 = isPlaying c
  /\ (forall frame, atFrame = Some frame -> currentFrame c1 = frame)
  /\ (forall deltas, updates fuel deltas c1 = Ok c1).
Proof.
  intros Hp H. unfold pause in H. rewrite Hp in H. cbn [negb] in H.
  assert (Hfacts : emitted c1 = emitted c
                   /\ isPlaying c1 = false
                   /\ _paused c1 = true
                   /\ _wasPlaying c1 = isPlaying c
                   /\ (forall frame, atFrame = Some frame ->
                                     currentFrame c1 = frame)).
  { destruct atFrame as [frame|].
    - unfold updateFrame, setCurrentFrame in H.
      destruct frame as [| |af]; try discriminate.
      cbn [bind] in H. fields_in H.
      injection H as H. subst c1. fields. repeat split.
      intros frame Hf. injection Hf as Hf. exact Hf.
    - injection H as H. subst c1. fields. repeat split.
      intros frame Hf. discriminate. }
  destruct Hfacts as (H1 & H2 & H3 & H4 & H5).
  repeat split; try assumption.
  intros deltas. apply updates_idle. left. exact H2.
Qed.

(** *** Direction *)

(** X5. [reverse()] is its own inverse: two calls in a row restore the
    component, playing or not. *)
Theorem reverse_involutive c :
  reverse (reverse c) = c.
Proof.
  unfold reverse. destruct (isPlaying c) eqn:E.
  - fields. rewrite E. rewrite !Bool.negb_involutive.
    destruct c. reflexivity.
  - rewrite E. reflexivity.
Qed.

(** *** The chain *)

Lemma chain_each_queue keys :
  forall c,
    nextAnim c <> NNull ->
    nextAnim (chain_each keys c) = nextAnim c
    /\ nextAnimsQueue (chain_each keys c) = (nextAnimsQueue c ++ keys)%list.
Proof.
  induction keys as [|k rest IH]; intros c Hn; cbn [chain_each].
  - split; [ reflexivity |]. symmetry. apply app_nil_r.
  - destruct (nextAnim c) eqn:E; try contradiction.
    + destruct (IH (set_nextAnimsQueue (nextAnimsQueue c ++ [k]) c))
        as [I1 I2].
      * fields. rewrite E. discriminate.
      * fields_in I1. fields_in I2. rewrite I1, I2, <- app_assoc.
        split; [ exact E | reflexivity ].
    + destruct (IH (set_nextAnimsQueue (nextAnimsQueue c ++ [k]) c))
        as [I1 I2].
      * fields. rewrite E. discriminate.
      * fields_in I1. fields_in I2. rewrite I1, I2, <- app_assoc.
        split; [ exact E | reflexivity ].
Qed.

(** X6. [chain(keys)] is first in, first out: the first key takes the
    next-animation slot when the slot holds [null], every other key joins
    the end of the queue in order; a slot that holds anything else,
    [undefined] included, is left alone.  [chain()] empties both. *)
Theorem chain_is_fifo keys c :
  nextAnim (chain (Some keys) c) = fst (chained keys c)
  /\ nextAnimsQueue (chain (Some keys) c) = snd (chained keys c)
  /\ nextAnim (chain None c) = NNull
  /\ nextAnimsQueue (chain None c) = [].
Proof.
  assert (Hreset : nextAnim (chain None c) = NNull
                   /\ nextAnimsQueue (chain None c) = [])
    by (split; reflexivity).
  destruct Hreset as [R1 R2].
  unfold chain, chained.
  destruct (nextAnim c) eqn:E.
  - destruct keys as [|k rest]; cbn [chain_each fst snd].
    + rewrite E, app_nil_r. repeat split; assumption.
    + rewrite E.
      destruct (chain_each_queue rest (set_nextAnim (NKey k) c))
        as [I1 I2]; [ fields; discriminate |].
      fields_in I1. fields_in I2. rewrite I1, I2.
      repeat split; assumption.
  - destruct (chain_each_queue keys c) as [I1 I2];
      [ rewrite E; discriminate |].
    rewrite I1, I2, E. cbn [fst snd]. repeat split; assumption.
  - destruct (chain_each_queue keys c) as [I1 I2];
      [ rewrite E; discriminate |].
    rewrite I1, I2, E. cbn [fst snd]. repeat split; assumption.
Qed.

(** *** What a start from rest establishes *)

Lemma emitEvents_cursor k c :
  on_return (cursor_kept c) (emitEvents k c).
Proof.
  unfold emitEvents, cursor_kept, frame_write.
  destruct (currentAnim c) eqn:E; cbn [on_return]; fields; auto 20.
Qed.

Lemma updateFrame_cursor this_stop f c :
  _pendingStop c = 0%Z ->
  on_return (cursor_kept c) (updateFrame this_stop f c).
Proof.
  intros H0. unfold updateFrame, setCurrentFrame, cursor_kept, frame_write.
  destruct f as [| |af]; cbn [bind on_return]; auto.
  fields.
  destruct (isPlaying c) eqn:Ep; cbn [on_return]; fields; auto 20.
  unfold emitEvents.
  destruct (AFrame.setAlpha af); fields;
    destruct (currentAnim c) eqn:Ea; cbn [bind on_return]; auto;
    fields; rewrite H0; cbn [Z.eqb andb on_return]; fields; auto 20.
Qed.

Lemma handleStart_cursor this_stop c :
  _pendingStop c = 0%Z ->
  on_return (cursor_kept c) (handleStart this_stop c).
Proof.
  intros H0. unfold handleStart.
  eapply on_return_bind.
  - apply updateFrame_cursor. destruct (showOnStart c); exact H0.
  - intros c1 H1.
    eapply on_return_weaken; [| apply emitEvents_cursor ].
    intros c2 H2. unfold cursor_kept, frame_write in *. fields_in H2.
    destruct H1 as ((A1 & A2 & A3 & A4 & A5) & A6 & A7 & A8 & A9 & A10
                    & A11 & A12 & A13 & A14 & A15 & A16 & A17).
    destruct H2 as ((B1 & B2 & B3 & B4 & B5) & B6 & B7 & B8 & B9 & B10
                    & B11 & B12 & B13 & B14 & B15 & B16 & B17).
    rewrite B1, B2, B3, B4, B5, B6, B7, B8, B9, B10, B11, B12, B13, B14,
      B15, B16, B17, A1, A2, A3, A4, A5, A6, A7, A8, A9, A10, A11, A12,
      A13, A14, A15, A16, A17.
    destruct (showOnStart c); fields; auto 20.
Qed.

Lemma load_idle_found this_stop key anim c c1 :
  isPlaying c = false ->
  manager_get (animationManager c) (requested_key key) = Some anim ->
  load this_stop key c = Ok c1 ->
  currentAnim c1 = Some anim
  /\ currentFrame c1 = array_index (Def.frames anim) (start_index key anim)
  /\ delay c1 = GetFastValue key Cfg.delay (Def.delay anim)
  /\ repeat c1 = GetFastValue key Cfg.repeat (Def.repeat anim)
  /\ isPlaying c1 = false
  /\ _pendingStop c1 = _pendingStop c
  /\ delayCounter c1 = delayCounter c
  /\ nextAnim c1 = nextAnim c
  /\ nextAnimsQueue c1 = nextAnimsQueue c
  /\ forward c1 = forward c
  /\ emitted c1 = emitted c
  /\ parent c1 = parent c
  /\ (Qeq_bool (start_index key anim) 0 && negb (forward c))%bool = false.
Proof.
  intros Hp Hm H. unfold load in H. rewrite Hp in H. cbn [bind] in H.
  rewrite Hm in H. cbv zeta in H. fields_in H.
  fold (start_index key anim) in H.
  destruct (Qeq_bool (start_index key anim) 0 && negb (forward c))%bool;
    [ discriminate |].
  injection H as H. subst c1. fields. repeat split; assumption.
Qed.

Lemma load_idle_missing this_stop key c :
  isPlaying c = false ->
  manager_get (animationManager c) (requested_key key) = None ->
  load this_stop key c = Ok (warned key c).
Proof.
  intros Hp Hm. unfold load. rewrite Hp. cbn [bind]. rewrite Hm. reflexivity.
Qed.

Lemma startAnimation_idle_chain this_stop key c :
  isPlaying c = false ->
  on_return
    (fun c' =>
       nextAnim c' = nextAnim c /\ nextAnimsQueue c' = nextAnimsQueue c)
    (startAnimation this_stop key c).
Proof.
  intros Hp. unfold startAnimation.
  destruct (load this_stop key c) as [c1| |] eqn:El; cbn [bind on_return];
    auto.
  - assert (Hc : nextAnim c1 = nextAnim c
                 /\ nextAnimsQueue c1 = nextAnimsQueue c).
    { destruct (manager_get (animationManager c) (requested_key key))
        as [anim|] eqn:Hm.
      - destruct (load_idle_found _ _ _ _ _ Hp Hm El)
          as (_ & _ & _ & _ & _ & _ & _ & H1 & H2 & _).
        split; assumption.
      - rewrite (load_idle_missing _ _ _ Hp Hm) in El.
        injection El as El. subst c1. split; reflexivity. }
    destruct Hc as [Hn Hq].
    destruct (currentAnim c1) as [a1|].
    + match goal with
      | |- context [if ?b then handleStart _ _ else _] => destruct b
      end.
      * eapply on_return_weaken; [| apply handleStart_cursor; reflexivity ].
        unfold cursor_kept. fields. intros c2 (_ & B1 & B2 & _).
        rewrite B1, B2. split; assumption.
      * cbn [on_return]. fields. split; assumption.
    + cbn [on_return]. split; assumption.
  - unfold load in El. rewrite Hp in El. cbn [bind] in El.
    destruct (manager_get (animationManager c) (requested_key key));
      [| discriminate ].
    cbv zeta in El.
    match type of El with
    | context [if ?b then Throw _ else _] => destruct b
    end; discriminate.
Qed.

Lemma startAnimation_idle_found this_stop key anim c :
  isPlaying c = false ->
  manager_get (animationManager c) (requested_key key) = Some anim ->
  on_return
    (fun c' =>
       currentAnim c' = Some anim
       /\ isPlaying c' = true
       /\ _pendingStop c' = 0%Z
       /\ delay c' = GetFastValue key Cfg.delay (Def.delay anim)
       /\ delayCounter c' = delayCounter c + delay c'
       /\ repeat c' = GetFastValue key Cfg.repeat (Def.repeat anim)
       /\ repeatCounter c' = repeats_from (repeat c')
       /\ forward c' = forward c)
    (startAnimation this_stop key c).
Proof.
  intros Hp Hm. unfold startAnimation.
  destruct (load this_stop key c) as [c1| |] eqn:El; cbn [bind on_return];
    auto.
  - destruct (load_idle_found _ _ _ _ _ Hp Hm El)
      as (Ha & _ & Hd & Hr & _ & _ & Hdc & _ & _ & Hfw & _).
    rewrite Ha.
    match goal with
    | |- context [if ?b then handleStart _ _ else _] => destruct b
    end.
    + eapply on_return_weaken; [| apply handleStart_cursor; reflexivity ].
      unfold cursor_kept, frame_write. fields.
      intros c2 ((B1 & _ & B3 & B4 & B5) & _ & _ & B8 & B9 & B10 & B11 & _).
      rewrite B1, B3, B4, B5, B8, B9, B10, B11, Hd, Hr, Hdc, Hfw.
      unfold repeats_from. repeat split; assumption.
    + cbn [on_return]. fields. rewrite Hd, Hr, Hdc, Hfw.
      unfold repeats_from. repeat split; assumption.
  - unfold load in El. rewrite Hp in El. cbn [bind] in El.
    rewrite Hm in El. cbv zeta in El.
    match type of El with
    | context [if ?b then Throw _ else _] => destruct b
    end; discriminate.
Qed.

Lemma on_return_and (P Q : Component -> Prop) r :
  on_return P r -> on_return Q r -> on_return (fun c => P c /\ Q c) r.
Proof.
  destruct r; cbn [on_return]; auto.
Qed.

Lemma play_idle this_stop key ignoreIfPlaying c :
  isPlaying c = false ->
  play this_stop key ignoreIfPlaying c
  = startAnimation this_stop key
      (set__wasPlaying true
         (set__paused false (set_inReverse false (set_forward true c)))).
Proof.
  intros Hp. unfold play, already_playing.
  rewrite Hp, Bool.andb_false_r. reflexivity.
Qed.

Lemma playReverse_idle this_stop key ignoreIfPlaying c :
  isPlaying c = false ->
  playReverse this_stop key ignoreIfPlaying c
  = startAnimation this_stop key
      (set__wasPlaying true
         (set__paused false (set_inReverse true (set_forward false c)))).
Proof.
  intros Hp. unfold playReverse, already_playing.
  rewrite Hp, Bool.andb_false_r. reflexivity.
Qed.

Lemma repeats_from_finite r :
  ~ repeats_from r == -1.
Proof.
  unfold repeats_from. destruct (Qeq_bool r (-1)) eqn:E.
  - vm_compute. discriminate.
  - apply Qeq_bool_neq. exact E.
Qed.

(** X7. A start from rest through [play] of a key that resolves ends,
    unless it faults, playing that Definition forwards with the pending
    stop cleared; [delayCounter] has grown by the loaded delay (nothing
    resets it, so the delays of successive starts add up) and
    [repeatCounter] is the loaded repeat value, or [MAX_VALUE] for [-1]:
    it is never [-1]. *)
Theorem play_from_rest this_stop key ignoreIfPlaying anim c :
  isPlaying c = false ->
  manager_get (animationManager c) (requested_key key) = Some anim ->
  on_return
    (fun c' =>
       currentAnim c' = Some anim
       /\ isPlaying c' = true
       /\ forward c' = true
       /\ _pendingStop c' = 0%Z
       /\ delayCounter c'
          = delayCounter c + GetFastValue key Cfg.delay (Def.delay anim)
       /\ repeatCounter c'
          = repeats_from (GetFastValue key Cfg.repeat (Def.repeat anim))
       /\ ~ repeatCounter c' == -1)
    (play this_stop key ignoreIfPlaying c).
Proof.
  intros Hp Hm. rewrite (play_idle this_stop key ignoreIfPlaying c Hp).
  eapply on_return_weaken;
    [| apply (startAnimation_idle_found this_stop key anim); [ exact Hp | exact Hm ] ].
  fields. intros c' (H1 & H2 & H3 & H4 & H5 & H6 & H7 & H8).
  rewrite H5, H4, H7, H6. repeat split; try assumption.
  apply repeats_from_finite.
Qed.

(** X8. After [setRepeat(v)] the repeat counter is [v], or [MAX_VALUE]
    for [-1], and so never [-1]: a following [stopAfterRepeat(n)] always
    arms the smaller of [n] and the counter. *)
Theorem setRepeat_then_stopAfterRepeat v n c :
  repeatCounter (setRepeat v c) = repeats_from v
  /\ ~ repeatCounter (setRepeat v c) == -1
  /\ _pendingStopValue (stopAfterRepeat (Some n) (setRepeat v c))
     = PVNumber (if Qle_bool n (repeats_from v) then n else repeats_from v).
Proof.
  assert (H1 : repeatCounter (setRepeat v c) = repeats_from v)
    by reflexivity.
  pose proof (repeats_from_finite v) as H2.
  split; [ exact H1 |]. split; [ rewrite H1; exact H2 |].
  unfold stopAfterRepeat. fields. rewrite H1.
  replace (Qeq_bool (repeats_from v) (-1)) with false.
  - cbn [negb andb]. unfold Qgt_bool.
    destruct (Qle_bool n (repeats_from v)); reflexivity.
  - symmetry. destruct (Qeq_bool (repeats_from v) (-1)) eqn:E;
      [| reflexivity ].
    apply Qeq_bool_iff in E. contradiction.
Qed.

(** *** Promotion of the chain *)

Lemma stop_clears c :
  on_return
    (fun c1 =>
       nextAnim c1 = nextAnim c
       /\ nextAnimsQueue c1 = nextAnimsQueue c
       /\ animationManager c1 = animationManager c
       /\ isPlaying c1 = false)
    (match currentAnim (set_isPlaying false (set__pendingStop 0%Z c)) with
     | Some _ => handleStop (set_isPlaying false (set__pendingStop 0%Z c))
     | None => Ok (set_isPlaying false (set__pendingStop 0%Z c))
     end).
Proof.
  fields. destruct (currentAnim c).
  - unfold handleStop.
    eapply on_return_weaken; [| apply emitEvents_cursor ].
    unfold cursor_kept, frame_write. fields.
    intros c1 ((_ & B2 & _ & B4 & _) & B6 & B7 & _). auto.
  - cbn [on_return]. fields. auto.
Qed.

Lemma promoted_start this_stop key c :
  isPlaying c = false ->
  on_return
    (fun c' =>
       nextAnim c' = nextAnim c
       /\ nextAnimsQueue c' = nextAnimsQueue c
       /\ forall anim,
            manager_get (animationManager c) (requested_key key) = Some anim ->
            currentAnim c' = Some anim /\ isPlaying c' = true
            /\ forward c' = true)
    (play this_stop key None c).
Proof.
  intros Hp. rewrite play_idle; [| exact Hp ].
  destruct (manager_get (animationManager c) (requested_key key))
    as [anim|] eqn:Hm.
  - eapply on_return_weaken;
      [| apply on_return_and;
         [ apply startAnimation_idle_chain; exact Hp
         | apply (startAnimation_idle_found this_stop key anim);
           [ exact Hp | exact Hm ] ] ].
    fields. intros c' ((H1 & H2) & K1 & K2 & _ & _ & _ & _ & _ & K8).
    split; [ exact H1 |]. split; [ exact H2 |].
    intros a Ha. injection Ha as Ha. subst a. auto.
  - eapply on_return_weaken;
      [| apply startAnimation_idle_chain; exact Hp ].
    fields. intros c' (H1 & H2).
    split; [ exact H1 |]. split; [ exact H2 |].
    intros a Ha. discriminate.
Qed.

Lemma stop_promotes fuel key c :
  next_key (nextAnim c) = Some key ->
  on_return
    (fun c' =>
       nextAnim c' = fst (shift (nextAnimsQueue c))
       /\ nextAnimsQueue c' = snd (shift (nextAnimsQueue c))
       /\ forall anim,
            manager_get (animationManager c) (requested_key key) = Some anim ->
            currentAnim c' = Some anim /\ isPlaying c' = true
            /\ forward c' = true)
    (stop (S fuel) c).
Proof.
  intros Hk. cbn [stop]. unfold stopBody.
  eapply on_return_bind; [ apply stop_clears |].
  intros c1 (H1 & H2 & H3 & H4). cbv beta.
  rewrite H1, Hk, <- H3, <- H2. cbv zeta.
  exact (promoted_start (stop fuel) key
           (set_nextAnimsQueue (snd (shift (nextAnimsQueue c1)))
              (set_nextAnim (fst (shift (nextAnimsQueue c1))) c1))
           H4).
Qed.

Lemma complete_promotes this_stop key c :
  next_key (nextAnim c) = Some key ->
  on_return
    (fun c' =>
       nextAnim c'
       = match nextAnimsQueue c with
         | [] => NNull
         | k :: _ => NKey k
         end
       /\ nextAnimsQueue c' = tl (nextAnimsQueue c)
       /\ forall anim,
            manager_get (animationManager c) (requested_key key) = Some anim ->
            currentAnim c' = Some anim /\ isPlaying c' = true
            /\ forward c' = true)
    (complete this_stop c).
Proof.
  intros Hk. unfold complete.
  eapply on_return_bind
    with (P := fun c1 =>
                 nextAnim c1 = nextAnim c
                 /\ nextAnimsQueue c1 = nextAnimsQueue c
                 /\ animationManager c1 = animationManager c
                 /\ isPlaying c1 = false).
  - fields. destruct (currentAnim c).
    + unfold handleComplete.
      eapply on_return_weaken; [| apply emitEvents_cursor ].
      unfold cursor_kept, frame_write. fields.
      destruct (hideOnComplete c); fields;
        intros c1 ((_ & B2 & _ & B4 & _) & B6 & B7 & _); auto.
    + cbn [on_return]. fields. auto.
  - intros c1 (H1 & H2 & H3 & H4). cbv beta.
    rewrite H1, Hk, <- H3, <- H2.
    destruct (nextAnimsQueue c1) as [|k rest] eqn:Eq;
      cbn [shift fst snd tl].
    + eapply on_return_weaken;
        [| exact (promoted_start this_stop key (set_nextAnim NNull c1) H4) ].
      fields. rewrite Eq. intros c' H. exact H.
    + exact (promoted_start this_stop key
               (set_nextAnimsQueue rest (set_nextAnim (NKey k) c1)) H4).
Qed.

(** X9. When the slot holds a (truthy) next animation, [stop()] and
    [complete()] start it and move the head of the queue into the slot;
    when it resolves, the component ends playing it forwards.  With an
    empty queue [stop()] leaves [undefined] in the slot and [complete()]
    leaves [null]. *)
Theorem chain_promotion fuel key c :
  next_key (nextAnim c) = Some key ->
  on_return
    (fun c' =>
       nextAnim c' = fst (shift (nextAnimsQueue c))
       /\ nextAnimsQueue c' = snd (shift (nextAnimsQueue c))
       /\ forall anim,
            manager_get (animationManager c) (requested_key key) = Some anim ->
            currentAnim c' = Some anim /\ isPlaying c' = true
            /\ forward c' = true)
    (stop (S fuel) c)
  /\ on_return
       (fun c' =>
          nextAnim c'
          = match nextAnimsQueue c with
            | [] => NNull
            | k :: _ => NKey k
            end
          /\ nextAnimsQueue c' = tl (nextAnimsQueue c)
          /\ forall anim,
               manager_get (animationManager c) (requested_key key)
               = Some anim ->
               currentAnim c' = Some anim /\ isPlaying c' = true
               /\ forward c' = true)
       (complete (stop fuel) c).
Proof.
  intros Hk. split.
  - apply stop_promotes. exact Hk.
  - apply complete_promotes. exact Hk.
Qed.

(** X10. Once [stop()] has started the last chained animation the slot
    holds [undefined], which [chain] does not take for empty: keys chained
    afterwards all go to the queue, the slot stays [undefined], and a
    later [stop()] or [complete()] finds nothing to start.  After
    [complete()] the slot holds [null] and the first key chained
    afterwards takes it. *)
Theorem chain_after_last_promotion fuel key keys c :
  next_key (nextAnim c) = Some key ->
  nextAnimsQueue c = [] ->
  on_return
    (fun c' =>
       nextAnim (chain (Some keys) c') = NUndefined
       /\ nextAnimsQueue (chain (Some keys) c') = keys
       /\ next_key (nextAnim (chain (Some keys) c')) = None)
    (stop (S fuel) c)
  /\ on_return
       (fun c' =>
          match keys with
          | k1 :: rest =>
              nextAnim (chain (Some keys) c') = NKey k1
              /\ nextAnimsQueue (chain (Some keys) c') = rest
          | [] => nextAnim (chain (Some keys) c') = NNull
          end)
       (complete (stop fuel) c).
Proof.
  intros Hk Hq. split.
  - eapply on_return_weaken; [| apply (stop_promotes fuel key c Hk) ].
    rewrite Hq. cbn [shift fst snd]. intros c' (H1 & H2 & _).
    destruct (chain_each_queue keys c') as [I1 I2];
      [ rewrite H1; discriminate |].
    unfold chain. rewrite I1, I2, H1, H2. repeat split.
  - eapply on_return_weaken;
      [| apply (complete_promotes (stop fuel) key c Hk) ].
    rewrite Hq. cbn [tl]. intros c' (H1 & H2 & _).
    unfold chain. destruct keys as [|k1 rest]; cbn [chain_each].
    + exact H1.
    + rewrite H1.
      destruct (chain_each_queue rest (set_nextAnim (NKey k1) c'))
        as [I1 I2]; [ fields; discriminate |].
      fields_in I1. fields_in I2. rewrite I1, I2, H2. split; reflexivity.
Qed.

(** *** Ending without a chain *)

Lemma complete_unchained this_stop anim c :
  currentAnim c = Some anim ->
  next_key (nextAnim c) = None ->
  complete this_stop c
  = Ok (set_emitted
          (emitted c ++ notifications COMPLETE (Def.key anim) (currentFrame c))
          (if hideOnComplete c
           then set_parent (GO.setVisible false (parent c))
                  (set_isPlaying false (set__pendingStop 0%Z c))
           else set_isPlaying false (set__pendingStop 0%Z c))).
Proof.
  intros Ha Hn. unfold complete, handleComplete, emitEvents.
  fields. rewrite Ha.
  destruct (hideOnComplete c) eqn:Eh; fields; rewrite Ha; cbn [bind];
    fields; rewrite Hn; destruct c; vm_compute; reflexivity.
Qed.

(** X11. With nothing chained, [stop()] and [complete()] end playback in
    place: not playing, pending stop cleared, frame and chain slot as they
    were.  With an animation loaded they fire one set of stop (complete)
    notifications, whether it was playing or not, and [complete()] hides
    the sprite when hide-on-complete is set; with nothing loaded they fire
    none. *)
Theorem ending_without_chain fuel this_stop c :
  next_key (nextAnim c) = None ->
  returns (stop (S fuel) c)
    (fun c' =>
       isPlaying c' = false /\ _pendingStop c' = 0%Z
       /\ currentFrame c' = currentFrame c /\ parent c' = parent c
       /\ nextAnim c' = nextAnim c
       /\ emitted c'
          = match currentAnim c with
            | Some anim =>
                (emitted c
                 ++ notifications STOP (Def.key anim) (currentFrame c))%list
            | None => emitted c
            end)
  /\ returns (complete this_stop c)
       (fun c' =>
          isPlaying c' = false /\ _pendingStop c' = 0%Z
          /\ currentFrame c' = currentFrame c
          /\ nextAnim c' = nextAnim c
          /\ emitted c'
             = match currentAnim c with
               | Some anim =>
                   (emitted c
                    ++ notifications COMPLETE (Def.key anim)
                         (currentFrame c))%list
               | None => emitted c
               end
          /\ GO.visible (parent c')
             = match currentAnim c with
               | Some _ =>
                   if hideOnComplete c then false
                   else GO.visible (parent c)
               | None => GO.visible (parent c)
               end).
Proof.
  intros Hn. destruct (currentAnim c) as [anim|] eqn:Ha; split.
  - rewrite (stop_unchained fuel anim c Ha Hn).
    unfold returns, stopped. fields. repeat split.
  - rewrite (complete_unchained this_stop anim c Ha Hn).
    unfold returns. destruct (hideOnComplete c); fields; repeat split.
  - rewrite (stop_unloaded fuel c Ha Hn).
    unfold returns. fields. repeat split.
  - unfold complete. fields. rewrite Ha. cbn [bind]. fields. rewrite Hn.
    unfold returns. fields. repeat split.
Qed.

(** *** Between two ticks *)

Lemma update_started_waits this_stop anim time delta c :
  currentAnim c = Some anim ->
  isPlaying c = true ->
  Def.paused anim = false ->
  hasStarted c = true ->
  _pendingStop c <> 1%Z ->
  accumulator c + delta * timeScale c < nextTick c ->
  update this_stop time delta c
  = Ok (set_accumulator (accumulator c + delta * timeScale c) c).
Proof.
  intros Ha Hp Hq Hs H1 Hlt. unfold update, update_advance.
  rewrite Ha, Hp, Hq. cbn [negb orb]. fields.
  replace (Z.eqb (_pendingStop c) 1) with false
    by (symmetry; apply Z.eqb_neq; exact H1).
  rewrite Hs. cbn [negb]. unfold Qge_bool.
  destruct (Qle_bool (nextTick c) (accumulator c + delta * timeScale c))
    eqn:E; [| reflexivity ].
  apply Qle_bool_iff in E. lra.
Qed.

Lemma update_started_advances this_stop anim time delta c :
  currentAnim c = Some anim ->
  isPlaying c = true ->
  Def.paused anim = false ->
  hasStarted c = true ->
  _pendingStop c <> 1%Z ->
  nextTick c <= accumulator c + delta * timeScale c ->
  update this_stop time delta c
  = (if forward c then anim_nextFrame else anim_previousFrame) anim
      (set_accumulator (accumulator c + delta * timeScale c) c).
Proof.
  intros Ha Hp Hq Hs H1 Hle. unfold update, update_advance.
  rewrite Ha, Hp, Hq. cbn [negb orb]. fields.
  replace (Z.eqb (_pendingStop c) 1) with false
    by (symmetry; apply Z.eqb_neq; exact H1).
  rewrite Hs. cbn [negb]. unfold Qge_bool.
  apply Qle_bool_iff in Hle. rewrite Hle.
  destruct (forward c); reflexivity.
Qed.

(** X12. Once started, with no after-ms stop armed, [update] leaves the
    frame alone until the accumulator reaches [nextTick]: a run that stays
    below it only accumulates; the call that reaches it hands the
    component, with all the time accumulated, to the Definition's
    [nextFrame] when playing forward and to [previousFrame] otherwise.
    The accumulator is the one the source computes: the runs are those
    whose sums and products are exact in doubles. *)
Theorem updates_between_ticks fuel anim deltas c :
  currentAnim c = Some anim ->
  isPlaying c = true ->
  Def.paused anim = false ->
  hasStarted c = true ->
  _pendingStop c <> 1%Z ->
  exact_run (nextTick c) c deltas = true ->
  stays_below (nextTick c) (timeScale c) (accumulator c) deltas ->
  updates fuel deltas c = Ok (set_accumulator (elapsed c deltas) c)
  /\ forall delta,
       exact_run (nextTick c) c (deltas ++ [delta]) = true ->
       nextTick c <= elapsed c (deltas ++ [delta]) ->
       updates fuel (deltas ++ [delta]) c
       = (if forward c then anim_nextFrame else anim_previousFrame) anim
           (set_accumulator (elapsed c (deltas ++ [delta])) c).
Proof.
  intros Ha Hp Hq Hs H1 _ Hb.
  assert (Hrun :
            forall ds c0,
              currentAnim c0 = Some anim ->
              isPlaying c0 = true ->
              hasStarted c0 = true ->
              _pendingStop c0 <> 1%Z ->
              stays_below (nextTick c0) (timeScale c0) (accumulator c0) ds ->
              updates fuel ds c0 = Ok (set_accumulator (elapsed c0 ds) c0)).
  { induction ds as [|d rest IH]; intros c0 A P S N B.
    - cbn [updates]. unfold elapsed. cbn [fold_left].
      rewrite set_accumulator_same. reflexivity.
    - destruct B as [Hlt B]. cbn [updates].
      rewrite (update_started_waits (stop fuel) anim 0 d c0 A P Hq S N Hlt).
      cbn [bind]. rewrite IH; try assumption. reflexivity. }
  split.
  - apply Hrun; assumption.
  - intros delta _ Hle.
    rewrite updates_app, (Hrun deltas c Ha Hp Hs H1 Hb).
    cbn [bind updates]. rewrite elapsed_snoc in Hle |- *.
    rewrite (update_started_advances (stop fuel) anim 0 delta
               (set_accumulator (elapsed c deltas) c));
      try assumption.
    fields.
    change (set_accumulator (elapsed c deltas + delta * timeScale c)
              (set_accumulator (elapsed c deltas) c))
      with (set_accumulator (elapsed c deltas + delta * timeScale c) c).
    destruct ((if forward c then anim_nextFrame else anim_previousFrame)
                anim
                (set_accumulator (elapsed c deltas + delta * timeScale c) c));
      cbn [bind]; reflexivity.
Qed.

(** *** The start frame of a successful [load] *)

Lemma array_index_proper l q q' :
  q == q' -> array_index l q = array_index l q'.
Proof.
  intros H. unfold array_index. rewrite (Qred_complete q q' H). reflexivity.
Qed.

Lemma array_index_nat l i f :
  nth_error l i = Some f ->
  array_index l (inject_Z (Z.of_nat i)) = FObj f.
Proof.
  intros H. unfold array_index. rewrite Qred_inject_Z.
  cbn [Qnum Qden inject_Z]. rewrite Nat2Z.id, H.
  replace (Z.leb 0 (Z.of_nat i)) with true
    by (symmetry; apply Z.leb_le; apply Nat2Z.is_nonneg).
  reflexivity.
Qed.

Lemma load_idle_ok this_stop key anim c :
  isPlaying c = false ->
  manager_get (animationManager c) (requested_key key) = Some anim ->
  (Qeq_bool (start_index key anim) 0 && negb (forward c))%bool = false ->
  returns (load this_stop key c)
    (fun c' =>
       currentAnim c' = Some anim
       /\ currentFrame c'
          = array_index (Def.frames anim) (start_index key anim)).
Proof.
  intros Hp Hm Hc. unfold load. rewrite Hp. cbn [bind].
  rewrite Hm. cbv zeta. fields. fold (start_index key anim).
  rewrite Hc. cbn [returns]. fields. split; reflexivity.
Qed.

(** X13. A [load] from rest of a key that resolves takes a requested start
    index inside the frame list as it is (index 0 only when playing
    forward), and falls back to index 0 for an index larger than the frame
    count; the selected frame becomes the current frame and the Definition
    the current animation. *)
Theorem load_start_frame this_stop key anim c :
  isPlaying c = false ->
  manager_get (animationManager c) (requested_key key) = Some anim ->
  (forall i f,
     GetFastValue key Cfg.startFrame 0 == inject_Z (Z.of_nat i) ->
     nth_error (Def.frames anim) i = Some f ->
     i <> 0%nat \/ forward c = true ->
     returns (load this_stop key c)
       (fun c' => currentAnim c' = Some anim /\ currentFrame c' = FObj f))
  /\ (forall f,
        def_getTotalFrames anim < GetFastValue key Cfg.startFrame 0 ->
        nth_error (Def.frames anim) 0 = Some f ->
        forward c = true ->
        returns (load this_stop key c)
          (fun c' => currentAnim c' = Some anim /\ currentFrame c' = FObj f)).
Proof.
  intros Hp Hm. split.
  - intros i f Hsf Hnth Hdir.
    assert (Hlen : (i < List.length (Def.frames anim))%nat)
      by (apply nth_error_Some; rewrite Hnth; discriminate).
    assert (Hin : start_index key anim = GetFastValue key Cfg.startFrame 0).
    { unfold start_index, Qgt_bool.
      replace (Qle_bool (GetFastValue key Cfg.startFrame 0)
                 (def_getTotalFrames anim)) with true; [ reflexivity |].
      symmetry. apply Qle_bool_iff. rewrite Hsf. unfold def_getTotalFrames.
      rewrite <- Zle_Qle. lia. }
    assert (Hc : (Qeq_bool (start_index key anim) 0
                  && negb (forward c))%bool = false).
    { destruct Hdir as [Hi | Hfw].
      - replace (Qeq_bool (start_index key anim) 0) with false;
          [ reflexivity |].
        symmetry. destruct (Qeq_bool (start_index key anim) 0) eqn:E;
          [| reflexivity ].
        apply Qeq_bool_iff in E. rewrite Hin, Hsf in E.
        pose proof (proj1 (inject_Z_injective (Z.of_nat i) 0) E) as E'.
        lia.
      - rewrite Hfw. apply Bool.andb_false_r. }
    pose proof (load_idle_ok this_stop key anim c Hp Hm Hc) as Hok.
    destruct (load this_stop key c) as [c'| |]; try contradiction.
    cbn [returns] in *. destruct Hok as [H1 H2].
    split; [ exact H1 |]. rewrite H2, Hin.
    rewrite (array_index_proper _ _ _ Hsf). apply array_index_nat. exact Hnth.
  - intros f Hbig Hnth Hfw.
    assert (Hin : start_index key anim = 0).
    { unfold start_index, Qgt_bool.
      replace (Qle_bool (GetFastValue key Cfg.startFrame 0)
                 (def_getTotalFrames anim)) with false; [ reflexivity |].
      symmetry.
      destruct (Qle_bool (GetFastValue key Cfg.startFrame 0)
                  (def_getTotalFrames anim)) eqn:E; [| reflexivity ].
      apply Qle_bool_iff in E. lra. }
    assert (Hc : (Qeq_bool (start_index key anim) 0
                  && negb (forward c))%bool = false)
      by (rewrite Hfw; apply Bool.andb_false_r).
    pose proof (load_idle_ok this_stop key anim c Hp Hm Hc) as Hok.
    destruct (load this_stop key c) as [c'| |]; try contradiction.
    cbn [returns] in *. destruct Hok as [H1 H2].
    split; [ exact H1 |]. rewrite H2, Hin.
    apply (array_index_nat _ 0%nat). exact Hnth.
Qed.

(** *** Stopping on a frame *)

Lemma updateFrame_playing this_stop anim f c :
  currentAnim c = Some anim ->
  isPlaying c = true ->
  updateFrame this_stop (FObj f) c
  = (let shown :=
       set_parent (show_frame f (parent c)) (set_currentFrame (FObj f) c) in
     let faded :=
       if AFrame.setAlpha f
       then set_parent (GO.set_alpha (AFrame.alpha f) (parent shown)) shown
       else shown in
     let told :=
       set_emitted
         (emitted c ++ notifications UPDATE (Def.key anim) (FObj f)) faded in
     if (Z.eqb (_pendingStop c) 3 && pv_is_frame (_pendingStopValue c) f)%bool
     then this_stop told
     else Ok told).
Proof.
  intros Ha Hp. unfold updateFrame, setCurrentFrame, emitEvents.
  cbn [bind]. fields. rewrite Hp. cbv zeta.
  destruct (AFrame.setAlpha f); fields; rewrite Ha; cbn [bind]; fields;
    reflexivity.
Qed.

(** X14. With [stopOnFrame(f)] armed on a playing component (nothing
    chained), the frame change that lands on [f] shows it, fires the
    update notifications and then stops: stop notifications follow, the
    component is not playing and the pending stop is cleared.  A frame
    change to another frame fires the update notifications only and leaves
    the stop armed. *)
Theorem stopOnFrame_stops_on_target fuel anim f g c :
  currentAnim c = Some anim ->
  isPlaying c = true ->
  next_key (nextAnim c) = None ->
  returns (updateFrame (stop (S fuel)) (FObj f) (stopOnFrame f c))
    (fun c' =>
       isPlaying c' = false
       /\ _pendingStop c' = 0%Z
       /\ currentFrame c' = FObj f
       /\ emitted c'
          = ((emitted c ++ notifications UPDATE (Def.key anim) (FObj f))
             ++ notifications STOP (Def.key anim) (FObj f))%list)
  /\ (AFrame.same f g = false ->
      returns (updateFrame (stop (S fuel)) (FObj g) (stopOnFrame f c))
        (fun c' =>
           isPlaying c' = true
           /\ _pendingStop c' = 3%Z
           /\ currentFrame c' = FObj g
           /\ emitted c'
              = (emitted c
                 ++ notifications UPDATE (Def.key anim) (FObj g))%list)).
Proof.
  intros Ha Hp Hn. split.
  - rewrite (updateFrame_playing (stop (S fuel)) anim f (stopOnFrame f c)
               Ha Hp).
    unfold stopOnFrame. fields. cbv zeta.
    unfold pv_is_frame, AFrame.same. rewrite Nat.eqb_refl.
    cbn [Z.eqb Pos.eqb andb].
    rewrite (stop_unchained fuel anim);
      [| destruct (AFrame.setAlpha f); fields; exact Ha
       | destruct (AFrame.setAlpha f); fields; exact Hn ].
    unfold returns, stopped.
    destruct (AFrame.setAlpha f); fields; repeat split.
  - intros Hfg.
    rewrite (updateFrame_playing (stop (S fuel)) anim g (stopOnFrame f c)
               Ha Hp).
    unfold stopOnFrame. fields. cbv zeta.
    unfold pv_is_frame. rewrite Hfg. cbn [Z.eqb Pos.eqb andb returns].
    destruct (AFrame.setAlpha g); fields; repeat split; exact Hp.
Qed.

(** *** Restart *)

(** X15. [restart] on a loaded animation that has a first frame fires the
    restart notifications (with the frame shown until then), rewinds to
    the first frame and fires the update notifications, and leaves the
    component playing, not paused, with no stop armed; it counts as
    started unless the delay is to be included.  The repeat counter is
    reset only on request, and [delayCounter] is left as it was. *)
Theorem restart_rewinds this_stop includeDelay resetRepeats anim first rest c :
  currentAnim c = Some anim ->
  Def.frames anim = first :: rest ->
  returns (restart this_stop includeDelay resetRepeats c)
    (fun c' =>
       isPlaying c' = true
       /\ _paused c' = false
       /\ _pendingStop c' = 0%Z
       /\ hasStarted c' = negb (default_false includeDelay)
       /\ currentFrame c' = FObj first
       /\ repeatCounter c'
          = (if default_false resetRepeats
             then repeats_from (repeat c)
             else repeatCounter c)
       /\ delayCounter c' = delayCounter c
       /\ emitted c'
          = ((emitted c
              ++ notifications RESTART (Def.key anim) (currentFrame c))
             ++ notifications UPDATE (Def.key anim) (FObj first))%list).
Proof.
  intros Ha Hfr. unfold restart. rewrite Ha. cbv zeta. unfold emitEvents.
  destruct (default_false resetRepeats); fields; rewrite Ha; cbn [bind];
    rewrite Hfr; change (array_index (first :: rest) 0) with (FObj first);
    (rewrite (updateFrame_playing this_stop anim first);
     [| fields; exact Ha | fields; reflexivity ]);
    fields; cbv zeta; cbn [Z.eqb andb returns];
    destruct (AFrame.setAlpha first); fields; repeat split.
Qed.

(** *** Depth of the nested [stop] *)

Lemma updateFrame_unarmed_any rec1 rec2 f c :
  _pendingStop c = 0%Z ->
  updateFrame rec1 f c = updateFrame rec2 f c.
Proof.
  intros H0. unfold updateFrame, setCurrentFrame.
  destruct f as [| |af]; try reflexivity.
  cbn [bind]. fields.
  destruct (isPlaying c); [| reflexivity ].
  unfold emitEvents.
  destruct (AFrame.setAlpha af); fields;
    destruct (currentAnim c); cbn [bind]; try reflexivity;
    fields; rewrite H0; reflexivity.
Qed.

Lemma handleStart_unarmed_any rec1 rec2 c :
  _pendingStop c = 0%Z ->
  handleStart rec1 c = handleStart rec2 c.
Proof.
  intros H0. unfold handleStart.
  rewrite (updateFrame_unarmed_any rec1 rec2);
    [ reflexivity | destruct (showOnStart c); exact H0 ].
Qed.

Lemma startAnimation_idle_any rec1 rec2 key c :
  isPlaying c = false ->
  startAnimation rec1 key c = startAnimation rec2 key c.
Proof.
  intros Hp. unfold startAnimation.
  replace (load rec1 key c) with (load rec2 key c)
    by (unfold load; rewrite Hp; reflexivity).
  destruct (load rec2 key c) as [c1| |]; cbn [bind]; try reflexivity.
  destruct (currentAnim c1); [| reflexivity ].
  match goal with
  | |- context [if ?b then handleStart _ _ else _] => destruct b
  end; [| reflexivity ].
  apply handleStart_unarmed_any. reflexivity.
Qed.

Lemma play_idle_any rec1 rec2 key ignoreIfPlaying c :
  isPlaying c = false ->
  play rec1 key ignoreIfPlaying c = play rec2 key ignoreIfPlaying c.
Proof.
  intros Hp. rewrite !play_idle by exact Hp.
  apply startAnimation_idle_any. exact Hp.
Qed.

Lemma bind_agree (P : Component -> Prop) m
  (k1 k2 : Component -> Result Component) :
  on_return P m ->
  (forall c, P c -> k1 c = k2 c) ->
  (c <- m ;; k1 c) = (c <- m ;; k2 c).
Proof.
  destruct m as [c| |]; cbn [on_return bind]; intros H Hk; auto.
Qed.

Lemma bind_agree_fault m (k1 k2 : Component -> Result Component) :
  (forall c, k1 c = k2 c) ->
  (c <- m ;; k1 c) = (c <- m ;; k2 c).
Proof.
  destruct m as [c| |]; cbn [bind]; intros Hk; auto.
Qed.

Lemma stopBody_any rec1 rec2 c :
  stopBody rec1 c = stopBody rec2 c.
Proof.
  unfold stopBody. cbv zeta.
  eapply bind_agree; [ apply stop_clears |].
  intros c1 (_ & _ & _ & Hp). cbv beta.
  destruct (next_key (nextAnim c1)); [| reflexivity ].
  apply play_idle_any. exact Hp.
Qed.

Lemma complete_any rec1 rec2 c :
  complete rec1 c = complete rec2 c.
Proof.
  unfold complete. cbv zeta.
  eapply bind_agree with (P := fun c1 => isPlaying c1 = false).
  - fields. destruct (currentAnim c); [| reflexivity ].
    unfold handleComplete.
    eapply on_return_weaken; [| apply emitEvents_keeps ].
    unfold frame_write. fields.
    destruct (hideOnComplete c); fields;
      intros c1 (_ & _ & _ & H & _); exact H.
  - intros c1 Hp. cbv beta.
    destruct (next_key (nextAnim c1)); [| reflexivity ].
    destruct (nextAnimsQueue c1); apply play_idle_any; exact Hp.
Qed.

Lemma restart_any rec1 rec2 includeDelay resetRepeats c :
  restart rec1 includeDelay resetRepeats c
  = restart rec2 includeDelay resetRepeats c.
Proof.
  unfold restart. destruct (currentAnim c) as [anim|]; [| reflexivity ].
  cbv zeta. apply bind_agree_fault.
  intros c1. apply updateFrame_unarmed_any. reflexivity.
Qed.

(** X16. [stop()] never re-enters itself: the chained [play] it makes
    finds the component at rest with no stop armed, so neither [load] nor
    the frame update calls [stop()] again.  One level of nesting is all
    there is: more fuel changes nothing and the call never runs out.
    [complete()], [restart()] and a [play] from rest do not reach [stop()]
    at all. *)
Theorem stop_never_reenters fuel this_stop c :
  stop (S fuel) c = stop 1 c
  /\ stop 1 c <> OutOfFuel
  /\ complete this_stop c = complete (stop 1) c
  /\ (forall includeDelay resetRepeats,
        restart this_stop includeDelay resetRepeats c
        = restart (stop 1) includeDelay resetRepeats c)
  /\ (isPlaying c = false ->
      forall key ignoreIfPlaying,
        play this_stop key ignoreIfPlaying c
        = play (stop 1) key ignoreIfPlaying c).
Proof.
  split; [| split; [| split; [| split ] ] ].
  - cbn [stop]. apply stopBody_any.
  - pose proof (stop_settles 0 c) as H.
    destruct (stop 1 c); [ discriminate | discriminate | contradiction ].
  - apply complete_any.
  - intros includeDelay resetRepeats. apply restart_any.
  - intros Hp key ignoreIfPlaying. apply play_idle_any. exact Hp.
Qed.

(** *** Handing over after a delay *)

Lemma update_after_ms_fires this_stop anim time delta v c :
  currentAnim c = Some anim ->
  isPlaying c = true ->
  Def.paused anim = false ->
  _pendingStop c = 1%Z ->
  _pendingStopValue c = PVNumber v ->
  v - delta <= 0 ->
  update this_stop time delta c
  = this_stop
      (set__pendingStopValue (PVNumber (v - delta))
         (set_accumulator (accumulator c + delta * timeScale c) c)).
Proof.
  intros Ha Hp Hq H1 Hv Hle. unfold update. rewrite Ha, Hp, Hq.
  cbn [negb orb]. fields. rewrite H1, Hv. cbn [Z.eqb Pos.eqb pv_sub pv_le0].
  apply Qle_bool_iff in Hle. rewrite Hle. reflexivity.
Qed.

(** X17. [playAfterDelay(key, d)] on a playing component changes nothing
    that shows: it arms the after-ms stop and puts [key] in the slot,
    moving a next animation already there to the front of the queue.  The
    [update] call that uses up the delay then stops the current animation
    and starts [key]; the animation that was next before is next again. *)
Theorem playAfterDelay_hands_over fuel key d delta anim c :
  currentAnim c = Some anim ->
  isPlaying c = true ->
  Def.paused anim = false ->
  next_key (NKey key) = Some key ->
  d - delta <= 0 ->
  returns (playAfterDelay (stop (S fuel)) key d c)
    (fun c1 =>
       isPlaying c1 = true
       /\ currentAnim c1 = Some anim
       /\ currentFrame c1 = currentFrame c
       /\ emitted c1 = emitted c
       /\ on_return
            (fun c' =>
               nextAnim c' = fst (shift (nextAnimsQueue (requeue_next c)))
               /\ nextAnimsQueue c'
                  = snd (shift (nextAnimsQueue (requeue_next c)))
               /\ (forall k0,
                     next_key (nextAnim c) = Some k0 ->
                     nextAnim c' = NKey k0
                     /\ nextAnimsQueue c' = nextAnimsQueue c)
               /\ forall a,
                    manager_get (animationManager c) (requested_key key)
                    = Some a ->
                    currentAnim c' = Some a /\ isPlaying c' = true
                    /\ forward c' = true)
            (update (stop (S fuel)) 0 delta c1)).
Proof.
  intros Ha Hp Hq Hk Hle. unfold playAfterDelay. rewrite Hp.
  cbn [negb returns].
  assert (Hr : isPlaying (requeue_next c) = true
               /\ currentAnim (requeue_next c) = Some anim
               /\ currentFrame (requeue_next c) = currentFrame c
               /\ emitted (requeue_next c) = emitted c
               /\ animationManager (requeue_next c) = animationManager c
               /\ forall k0,
                    next_key (nextAnim c) = Some k0 ->
                    nextAnimsQueue (requeue_next c)
                    = k0 :: nextAnimsQueue c).
  { unfold requeue_next.
    destruct (next_key (nextAnim c)) as [k|]; fields; repeat split;
      try assumption.
    - intros k0 E. injection E as E. subst k0. reflexivity.
    - intros k0 E. discriminate. }
  destruct Hr as (R1 & R2 & R3 & R4 & R5 & R6).
  fields. repeat split; try assumption.
  rewrite (update_after_ms_fires (stop (S fuel)) anim 0 delta d);
    try assumption; try reflexivity.
  eapply on_return_weaken; [| apply (stop_promotes fuel key) ].
  - fields. rewrite R5. intros c' (H1 & H2 & H3).
    split; [ exact H1 |]. split; [ exact H2 |]. split; [| exact H3 ].
    intros k0 E. rewrite H1, H2, (R6 k0 E). split; reflexivity.
  - fields. exact Hk.
Qed.

(** *** Coherence *)

Lemma sound_refl c :
  coherent c -> sound c c.
Proof.
  intros H. split; [ exact H | auto ].
Qed.

Lemma sound_trans c c1 c2 :
  sound c c1 -> sound c1 c2 -> sound c c2.
Proof.
  intros [_ H1] [H2 H3]. split; [ exact H2 | auto ].
Qed.

Lemma sound_same_flags c c1 c2 :
  sound c c1 ->
  currentAnim c2 = currentAnim c1 ->
  isPlaying c2 = isPlaying c1 ->
  _paused c2 = _paused c1 ->
  _wasPlaying c2 = _wasPlaying c1 ->
  sound c c2.
Proof.
  intros [[H1 H2] H3] Ea Ep Eq Ew. unfold sound, coherent.
  rewrite Ea, Ep, Eq, Ew. auto.
Qed.

Lemma sound_loaded c c2 anim :
  currentAnim c2 = Some anim -> sound c c2.
Proof.
  intros Ea. unfold sound, coherent. rewrite Ea.
  repeat split; intros; discriminate.
Qed.

Lemma sound_at_rest c c1 c2 :
  sound c c1 ->
  currentAnim c2 = currentAnim c1 ->
  isPlaying c2 = false ->
  _paused c2 = _paused c1 ->
  _wasPlaying c2 = _wasPlaying c1 ->
  sound c c2.
Proof.
  intros [[H1 H2] H3] Ea Ep Eq Ew. unfold sound, coherent.
  rewrite Ea, Ep, Eq, Ew. repeat split; auto. intros; discriminate.
Qed.

Lemma emitEvents_sound k c c1 :
  sound c c1 -> on_return (sound c) (emitEvents k c1).
Proof.
  intros Hs. eapply on_return_weaken; [| apply emitEvents_cursor ].
  intros c2 ((_ & _ & Ea & Ep & _) & H). 
  destruct H as (_ & _ & _ & _ & _ & _ & _ & _ & _ & _ & Eq & Ew).
  apply (sound_same_flags c c1 c2 Hs Ea Ep Eq Ew).
Qed.

Lemma updateFrame_sound this_stop f c :
  (_pendingStop c = 3%Z -> keeps_coherent this_stop) ->
  coherent c ->
  on_return (sound c) (updateFrame this_stop f c).
Proof.
  intros Hrec Hc.
  destruct f as [| |af];
    try (unfold updateFrame, setCurrentFrame; cbn [bind on_return]; exact I).
  destruct (isPlaying c) eqn:Ep.
  - destruct (currentAnim c) as [anim|] eqn:Ea;
      [| exfalso; apply (proj1 Hc Ep Ea) ].
    rewrite (updateFrame_playing this_stop anim af c Ea Ep). cbv zeta.
    assert (Htold :
              forall shown,
                currentAnim shown = currentAnim c ->
                isPlaying shown = isPlaying c ->
                _paused shown = _paused c ->
                _wasPlaying shown = _wasPlaying c ->
                sound c
                  (set_emitted
                     (emitted c
                      ++ notifications UPDATE (Def.key anim) (FObj af))
                     shown)).
    { intros shown E1 E2 E3 E4.
      apply (sound_same_flags c c _ (sound_refl c Hc)); assumption. }
    destruct (Z.eqb (_pendingStop c) 3) eqn:E3; cbn [andb].
    + apply Z.eqb_eq in E3.
      destruct (pv_is_frame (_pendingStopValue c) af).
      * destruct (AFrame.setAlpha af);
          (eapply on_return_weaken;
           [| apply (Hrec E3); apply Htold; reflexivity ]);
          intros c2 Hs2;
          (eapply sound_trans; [| exact Hs2 ]);
          apply Htold; reflexivity.
      * cbn [on_return].
        destruct (AFrame.setAlpha af); apply Htold; reflexivity.
    + cbn [on_return].
      destruct (AFrame.setAlpha af); apply Htold; reflexivity.
  - unfold updateFrame, setCurrentFrame. cbn [bind]. fields. rewrite Ep.
    cbn [on_return].
    apply (sound_same_flags c c _ (sound_refl c Hc)); reflexivity.
Qed.

Lemma handleStart_sound this_stop c :
  (_pendingStop c = 3%Z -> keeps_coherent this_stop) ->
  coherent c ->
  on_return (sound c) (handleStart this_stop c).
Proof.
  intros Hrec Hc. unfold handleStart.
  assert (Hshow :
            sound c
              (if showOnStart c
               then set_parent (GO.setVisible true (parent c)) c
               else c)).
  { destruct (showOnStart c).
    - apply (sound_same_flags c c _ (sound_refl c Hc)); reflexivity.
    - apply sound_refl. exact Hc. }
  eapply on_return_bind with (P := sound c).
  - eapply on_return_weaken;
      [| apply updateFrame_sound;
         [ destruct (showOnStart c); exact Hrec | exact (proj1 Hshow) ] ].
    intros c1 Hs1. eapply sound_trans; [ exact Hshow | exact Hs1 ].
  - intros c1 Hs1. apply emitEvents_sound.
    apply (sound_same_flags c c1 _ Hs1); reflexivity.
Qed.

Lemma load_sound this_stop key c :
  (isPlaying c = true -> keeps_coherent this_stop) ->
  coherent c ->
  on_return (sound c) (load this_stop key c).
Proof.
  intros Hrec Hc. unfold load.
  eapply on_return_bind with (P := sound c).
  - destruct (isPlaying c) eqn:Ep.
    + apply (Hrec eq_refl). exact Hc.
    + cbn [on_return]. apply sound_refl. exact Hc.
  - intros c1 Hs1. cbv beta.
    destruct (manager_get (animationManager c1) (requested_key key))
      as [anim|].
    + cbv zeta.
      match goal with
      | |- context [if ?b then Throw _ else _] => destruct b
      end; cbn [on_return]; [ exact I |].
      apply (sound_loaded c _ anim). reflexivity.
    + cbn [on_return].
      apply (sound_same_flags c c1 _ Hs1); reflexivity.
Qed.

Lemma startAnimation_sound this_stop key c :
  (isPlaying c = true -> keeps_coherent this_stop) ->
  coherent c ->
  on_return (sound c) (startAnimation this_stop key c).
Proof.
  intros Hrec Hc. unfold startAnimation.
  eapply on_return_bind; [ apply load_sound; assumption |].
  intros c1 Hs1. cbv beta.
  destruct (currentAnim c1) as [anim|] eqn:Ea; [| exact Hs1 ].
  cbv zeta.
  match goal with
  | |- context [if ?b then handleStart _ ?x else _] =>
      assert (Hx : sound c x)
        by (apply (sound_loaded c x anim); fields; exact Ea);
      destruct b
  end.
  - eapply on_return_weaken;
      [| apply handleStart_sound; [ fields; discriminate | exact (proj1 Hx) ] ].
    intros c2 Hs2. eapply sound_trans; [ exact Hx | exact Hs2 ].
  - cbn [on_return]. exact Hx.
Qed.

Lemma start_flags_sound c fw rev :
  coherent c ->
  sound c
    (set__wasPlaying true
       (set__paused false (set_inReverse rev (set_forward fw c)))).
Proof.
  intros [H1 H2]. unfold sound, coherent. fields.
  repeat split; auto. intros; discriminate.
Qed.

Lemma play_sound this_stop key ignoreIfPlaying c :
  (isPlaying c = true -> keeps_coherent this_stop) ->
  coherent c ->
  on_return (sound c) (play this_stop key ignoreIfPlaying c).
Proof.
  intros Hrec Hc. unfold play.
  destruct (already_playing key ignoreIfPlaying c) as [[|]| |] eqn:E;
    cbn [bind on_return]; auto.
  - apply sound_refl. exact Hc.
  - pose proof (start_flags_sound c true false Hc) as Hf.
    eapply on_return_weaken;
      [| apply startAnimation_sound; [ exact Hrec | exact (proj1 Hf) ] ].
    intros c2 Hs2. eapply sound_trans; [ exact Hf | exact Hs2 ].
  - unfold already_playing in E.
    destruct (default_false ignoreIfPlaying && isPlaying c)%bool;
      [ destruct (currentAnim c) |]; discriminate.
Qed.

Lemma playReverse_sound this_stop key ignoreIfPlaying c :
  (isPlaying c = true -> keeps_coherent this_stop) ->
  coherent c ->
  on_return (sound c) (playReverse this_stop key ignoreIfPlaying c).
Proof.
  intros Hrec Hc. unfold playReverse.
  destruct (already_playing key ignoreIfPlaying c) as [[|]| |] eqn:E;
    cbn [bind on_return]; auto.
  - apply sound_refl. exact Hc.
  - pose proof (start_flags_sound c false true Hc) as Hf.
    eapply on_return_weaken;
      [| apply startAnimation_sound; [ exact Hrec | exact (proj1 Hf) ] ].
    intros c2 Hs2. eapply sound_trans; [ exact Hf | exact Hs2 ].
  - unfold already_playing in E.
    destruct (default_false ignoreIfPlaying && isPlaying c)%bool;
      [ destruct (currentAnim c) |]; discriminate.
Qed.

Lemma halted_sound c :
  coherent c ->
  sound c (set_isPlaying false (set__pendingStop 0%Z c)).
Proof.
  intros Hc. apply (sound_at_rest c c _ (sound_refl c Hc)); reflexivity.
Qed.

Lemma stopBody_sound this_stop c :
  coherent c ->
  on_return (sound c) (stopBody this_stop c).
Proof.
  intros Hc. unfold stopBody. cbv zeta.
  eapply on_return_bind
    with (P := fun c1 => sound c c1 /\ isPlaying c1 = false).
  - fields. destruct (currentAnim c).
    + unfold handleStop.
      eapply on_return_weaken;
        [| apply on_return_and;
           [ apply (emitEvents_sound STOP c);
             apply (sound_at_rest c c _ (sound_refl c Hc)); reflexivity
           | apply emitEvents_keeps ] ].
      unfold frame_write. fields. intros c1 (H1 & _ & _ & _ & H4 & _). auto.
    + cbn [on_return]. split; [ apply halted_sound; exact Hc | reflexivity ].
  - intros c1 [Hs1 Hp1]. cbv beta.
    destruct (next_key (nextAnim c1)) as [key|]; [| exact Hs1 ].
    eapply on_return_weaken;
      [| apply play_sound;
         [ fields; intros Habs; rewrite Hp1 in Habs; discriminate
         | apply (sound_same_flags c c1 _ Hs1); reflexivity ] ].
    intros c2 Hs2. eapply sound_trans; [| exact Hs2 ].
    apply (sound_same_flags c c1 _ Hs1); reflexivity.
Qed.

Lemma stop_sound fuel :
  keeps_coherent (stop (S fuel)).
Proof.
  intros c Hc. cbn [stop]. apply stopBody_sound. exact Hc.
Qed.

Lemma complete_sound this_stop c :
  coherent c ->
  on_return (sound c) (complete this_stop c).
Proof.
  intros Hc. unfold complete. cbv zeta.
  eapply on_return_bind
    with (P := fun c1 => sound c c1 /\ isPlaying c1 = false).
  - fields. destruct (currentAnim c).
    + unfold handleComplete. cbv zeta. fields.
      eapply on_return_weaken;
        [| apply on_return_and;
           [ apply (emitEvents_sound COMPLETE c);
             destruct (hideOnComplete c);
             apply (sound_at_rest c c _ (sound_refl c Hc)); reflexivity
           | apply emitEvents_keeps ] ].
      unfold frame_write.
      destruct (hideOnComplete c); fields;
        intros c1 (H1 & _ & _ & _ & H4 & _); auto.
    + cbn [on_return]. split; [ apply halted_sound; exact Hc | reflexivity ].
  - intros c1 [Hs1 Hp1]. cbv beta.
    destruct (next_key (nextAnim c1)) as [key|]; [| exact Hs1 ].
    destruct (nextAnimsQueue c1);
      (eapply on_return_weaken;
       [| apply play_sound;
          [ fields; intros Habs; rewrite Hp1 in Habs; discriminate
          | apply (sound_same_flags c c1 _ Hs1); reflexivity ] ]);
      intros c2 Hs2;
      (eapply sound_trans; [| exact Hs2 ]);
      apply (sound_same_flags c c1 _ Hs1); reflexivity.
Qed.

Lemma restart_sound this_stop includeDelay resetRepeats c :
  coherent c ->
  on_return (sound c) (restart this_stop includeDelay resetRepeats c).
Proof.
  intros Hc. unfold restart.
  destruct (currentAnim c) as [anim|] eqn:Ea;
    [| cbn [on_return]; apply sound_refl; exact Hc ].
  cbv zeta.
  eapply on_return_bind
    with (P := fun c1 => currentAnim c1 = Some anim).
  - eapply on_return_weaken; [| apply emitEvents_keeps ].
    unfold frame_write.
    destruct (default_false resetRepeats); fields;
      intros c1 (_ & _ & H & _); rewrite H; exact Ea.
  - intros c1 Ea1. cbv beta.
    match goal with
    | |- on_return _ (updateFrame _ _ ?x) =>
        assert (Hx : sound c x)
          by (apply (sound_loaded c x anim); fields; exact Ea1);
        eapply on_return_weaken;
          [| apply (updateFrame_sound this_stop _ x);
             [ fields; discriminate | exact (proj1 Hx) ] ];
        intros c2 Hs2; eapply sound_trans; [ exact Hx | exact Hs2 ]
    end.
Qed.

Lemma pause_sound this_stop atFrame c :
  keeps_coherent this_stop ->
  coherent c ->
  on_return (sound c) (pause this_stop atFrame c).
Proof.
  intros Hrec Hc. unfold pause.
  assert (Hx : sound c
                 (if negb (_paused c)
                  then set_isPlaying false
                         (set__wasPlaying (isPlaying c)
                            (set__paused true c))
                  else c)).
  { destruct (_paused c); cbn [negb]; [ apply sound_refl; exact Hc |].
    destruct Hc as [H1 H2]. unfold sound, coherent. fields.
    repeat split; auto; intros; discriminate. }
  destruct atFrame as [frame|]; [| exact Hx ].
  eapply on_return_weaken;
    [| apply updateFrame_sound; [ intros _; exact Hrec | exact (proj1 Hx) ] ].
  intros c2 Hs2. eapply sound_trans; [ exact Hx | exact Hs2 ].
Qed.

Lemma resume_sound this_stop fromFrame c :
  keeps_coherent this_stop ->
  coherent c ->
  on_return (sound c) (resume this_stop fromFrame c).
Proof.
  intros Hrec Hc. unfold resume.
  assert (Hx : sound c
                 (if _paused c
                  then set_isPlaying (_wasPlaying c) (set__paused false c)
                  else c)).
  { destruct (_paused c) eqn:Eq; [| apply sound_refl; exact Hc ].
    destruct Hc as [H1 H2]. unfold sound, coherent. fields.
    repeat split; auto; intros; discriminate. }
  destruct fromFrame as [frame|]; [| exact Hx ].
  eapply on_return_weaken;
    [| apply updateFrame_sound; [ intros _; exact Hrec | exact (proj1 Hx) ] ].
  intros c2 Hs2. eapply sound_trans; [ exact Hx | exact Hs2 ].
Qed.

Lemma remove_sound this_stop key animation c :
  keeps_coherent this_stop ->
  coherent c ->
  on_return (sound c) (remove this_stop key animation c).
Proof.
  intros Hrec Hc. unfold remove.
  destruct (isPlaying c); [| cbn [on_return]; apply sound_refl; exact Hc ].
  destruct (match animation with
            | Some a => Some a
            | None => currentAnim c
            end) as [a|]; [| exact I ].
  destruct (currentAnim c) as [cur|]; [| exact I ].
  destruct (String.eqb (Def.key a) (Def.key cur));
    [| cbn [on_return]; apply sound_refl; exact Hc ].
  eapply on_return_bind; [ apply Hrec; exact Hc |].
  intros c1 Hs1. cbv beta.
  destruct (currentAnim c1) as [cur'|]; [| exact I ].
  unfold setCurrentFrame.
  destruct (array_index (Def.frames cur') 0); cbn [on_return]; auto.
Qed.

Lemma requeue_next_sound c :
  coherent c -> sound c (requeue_next c).
Proof.
  intros Hc. unfold requeue_next.
  destruct (next_key (nextAnim c)); [| apply sound_refl; exact Hc ].
  apply (sound_same_flags c c _ (sound_refl c Hc)); reflexivity.
Qed.

Lemma update_sound this_stop time delta c :
  keeps_coherent this_stop ->
  (forall anim, keeps_coherent (anim_nextFrame anim)) ->
  (forall anim, keeps_coherent (anim_previousFrame anim)) ->
  coherent c ->
  on_return (sound c) (update this_stop time delta c).
Proof.
  intros Hrec Hnext Hprev Hc. unfold update.
  destruct (currentAnim c) as [anim|];
    [| cbn [on_return]; apply sound_refl; exact Hc ].
  destruct (negb (isPlaying c) || Def.paused anim)%bool;
    [ cbn [on_return]; apply sound_refl; exact Hc |].
  cbv zeta.
  assert (Hadv :
            forall x, sound c x ->
                      on_return (sound c) (update_advance this_stop anim x)).
  { intros x Hx. unfold update_advance.
    destruct (negb (hasStarted x)).
    - destruct (Qge_bool (accumulator x) (delayCounter x));
        [| exact Hx ].
      match goal with
      | |- on_return _ (handleStart _ ?y) =>
          assert (Hy : sound c y)
            by (apply (sound_same_flags c x y Hx); reflexivity);
          eapply on_return_weaken;
            [| apply handleStart_sound;
               [ intros _; exact Hrec | exact (proj1 Hy) ] ];
          intros c2 Hs2; eapply sound_trans; [ exact Hy | exact Hs2 ]
      end.
    - destruct (Qge_bool (accumulator x) (nextTick x)); [| exact Hx ].
      destruct (forward x).
      + eapply on_return_weaken; [| apply Hnext; exact (proj1 Hx) ].
        intros c2 Hs2. eapply sound_trans; [ exact Hx | exact Hs2 ].
      + eapply on_return_weaken; [| apply Hprev; exact (proj1 Hx) ].
        intros c2 Hs2. eapply sound_trans; [ exact Hx | exact Hs2 ]. }
  fields.
  destruct (Z.eqb (_pendingStop c) 1).
  - destruct (pv_le0 (pv_sub (_pendingStopValue c) delta)).
    + match goal with
      | |- on_return _ (this_stop ?y) =>
          assert (Hy : sound c y)
            by (apply (sound_same_flags c c y (sound_refl c Hc));
                reflexivity);
          eapply on_return_weaken; [| apply Hrec; exact (proj1 Hy) ];
          intros c2 Hs2; eapply sound_trans; [ exact Hy | exact Hs2 ]
      end.
    + apply Hadv.
      apply (sound_same_flags c c _ (sound_refl c Hc)); reflexivity.
  - apply Hadv.
    apply (sound_same_flags c c _ (sound_refl c Hc)); reflexivity.
Qed.

(** X18. The component stays coherent: if it plays only with a Definition
    loaded (and a pause that interrupted playback has one too), as a new
    component does, then so it does after every method, and no method
    unloads the Definition.  For [update] this holds as long as the
    Definition's two frame-advance algorithms keep it. *)
Theorem coherence_is_kept fuel c :
  coherent c ->
  on_return (sound c) (stop (S fuel) c)
  /\ on_return (sound c) (complete (stop (S fuel)) c)
  /\ (forall key, on_return (sound c) (load (stop (S fuel)) key c))
  /\ (forall key, on_return (sound c) (startAnimation (stop (S fuel)) key c))
  /\ (forall key ignoreIfPlaying,
        on_return (sound c) (play (stop (S fuel)) key ignoreIfPlaying c)
        /\ on_return (sound c)
             (playReverse (stop (S fuel)) key ignoreIfPlaying c))
  /\ (forall key delay,
        on_return (sound c) (playAfterDelay (stop (S fuel)) key delay c))
  /\ (forall key repeatCount,
        on_return (sound c)
          (playAfterRepeat (stop (S fuel)) key repeatCount c))
  /\ (forall includeDelay resetRepeats,
        on_return (sound c)
          (restart (stop (S fuel)) includeDelay resetRepeats c))
  /\ (forall frame,
        on_return (sound c) (pause (stop (S fuel)) frame c)
        /\ on_return (sound c) (resume (stop (S fuel)) frame c))
  /\ (forall key animation,
        on_return (sound c) (remove (stop (S fuel)) key animation c))
  /\ ((forall anim, keeps_coherent (anim_nextFrame anim)) ->
      (forall anim, keeps_coherent (anim_previousFrame anim)) ->
      forall deltas, on_return (sound c) (updates (S fuel) deltas c)).
Proof.
  intros Hc.
  pose proof (stop_sound fuel) as Hstop.
  repeat split.
  - apply Hstop. exact Hc.
  - apply complete_sound. exact Hc.
  - intros key. apply load_sound; [ intros _; exact Hstop | exact Hc ].
  - intros key.
    apply startAnimation_sound; [ intros _; exact Hstop | exact Hc ].
  - apply play_sound; [ intros _; exact Hstop | exact Hc ].
  - apply playReverse_sound; [ intros _; exact Hstop | exact Hc ].
  - intros key delay. unfold playAfterDelay.
    destruct (negb (isPlaying c)).
    + assert (Hx : sound c (set_delayCounter delay c))
        by (apply (sound_same_flags c c _ (sound_refl c Hc)); reflexivity).
      eapply on_return_weaken;
        [| apply play_sound; [ intros _; exact Hstop | exact (proj1 Hx) ] ].
      intros c2 Hs2. eapply sound_trans; [ exact Hx | exact Hs2 ].
    + cbn [on_return].
      apply (sound_same_flags c _ _ (requeue_next_sound c Hc)); reflexivity.
  - intros key repeatCount. unfold playAfterRepeat.
    destruct (negb (isPlaying c)).
    + apply play_sound; [ intros _; exact Hstop | exact Hc ].
    + cbn [on_return].
      apply (sound_same_flags c _ _ (requeue_next_sound c Hc)); reflexivity.
  - intros includeDelay resetRepeats. apply restart_sound. exact Hc.
  - apply pause_sound; [ exact Hstop | exact Hc ].
  - apply resume_sound; [ exact Hstop | exact Hc ].
  - intros key animation. apply remove_sound; [ exact Hstop | exact Hc ].
  - intros Hnext Hprev deltas. revert c Hc.
    induction deltas as [|d rest IH]; intros c Hc; cbn [updates].
    + cbn [on_return]. apply sound_refl. exact Hc.
    + eapply on_return_bind.
      * apply update_sound; [ exact Hstop | exact Hnext | exact Hprev | exact Hc ].
      * intros c1 Hs1. cbv beta.
        eapply on_return_weaken; [| apply IH; exact (proj1 Hs1) ].
        intros c2 Hs2. eapply sound_trans; [ exact Hs1 | exact Hs2 ].
Qed.

(** *** A failed [load] *)


(** X19. A start with a key that does not resolve, on a component at
    rest.  With nothing loaded it returns after the warning and resets
    nothing: the pending stop stays as armed and the component stays at
    rest.  With a Definition loaded, the failed [load] leaves it in place
    and the start goes on with it: a return finds the component playing
    the Definition loaded before, the pending stop cleared. *)
Theorem start_unresolved this_stop key ignoreIfPlaying c :
  isPlaying c = false ->
  manager_get (animationManager c) (requested_key key) = None ->
  (currentAnim c = None ->
   returns (play this_stop key ignoreIfPlaying c)
     (fun c' =>
        _pendingStop c' = _pendingStop c
        /\ _pendingStopValue c' = _pendingStopValue c
        /\ isPlaying c' = false
        /\ currentAnim c' = None
        /\ console c' = console (warned key c)))
  /\ (forall anim,
        currentAnim c = Some anim ->
        on_return
          (fun c' =>
             currentAnim c' = Some anim
             /\ isPlaying c' = true
             /\ _pendingStop c' = 0%Z
             /\ console c' = console (warned key c))
          (play this_stop key ignoreIfPlaying c)).
Proof.
  intros Hp Hm.
  assert (Hload :
            load this_stop key
              (set__wasPlaying true
                 (set__paused false
                    (set_inReverse false (set_forward true c))))
            = Ok (warned key
                    (set__wasPlaying true
                       (set__paused false
                          (set_inReverse false (set_forward true c)))))).
  { apply load_idle_missing; fields; assumption. }
  split.
  - intros Ha. rewrite (play_idle this_stop key ignoreIfPlaying c Hp).
    unfold startAnimation. rewrite Hload. cbn [bind].
    unfold warned. fields. rewrite Ha. cbn [returns]. fields.
    repeat split; assumption.
  - intros anim Ha. rewrite (play_idle this_stop key ignoreIfPlaying c Hp).
    unfold startAnimation. rewrite Hload. cbn [bind].
    unfold warned. fields. rewrite Ha.
    match goal with
    | |- on_return _ (if ?b then handleStart _ ?x else _) =>
        destruct b;
        [ eapply on_return_weaken;
          [| apply (handleStart_cursor this_stop x); reflexivity ]
        | cbn [on_return]; fields; repeat split; assumption ]
    end.
    intros c' ((A1 & _ & A3 & A4 & _) & B).
    destruct B as (_ & _ & _ & _ & _ & _ & _ & _ & _ & B10 & _).
    fields_in A1. fields_in A3. fields_in A4. fields_in B10.
    repeat split; try assumption.
    rewrite A3. exact Ha.
Qed.

End Playback.

(** ** Concrete runs

    The sample collaborators stand in for the Definition's side. *)

Lemma delay_gates_start_witness :
  exists c,
    startAnimation sample_calculateDuration sample_getFirstTick
      (stop sample_calculateDuration sample_getFirstTick 1) delayed_a fresh
    = Ok c
    /\ delayCounter c == 100
    /\ exact_run (delayCounter c) c ([61 # 2; 161 # 4] ++ [50]) = true
    /\ updates sample_calculateDuration sample_getFirstTick sample_advance
         sample_advance 1 [61 # 2; 161 # 4] c
       = Ok (set_accumulator (elapsed c [61 # 2; 161 # 4]) c)
    /\ returns
         (updates sample_calculateDuration sample_getFirstTick sample_advance
            sample_advance 1 ([61 # 2; 161 # 4] ++ [50]) c)
         (fun c' =>
            hasStarted c' = true
            /\ accumulator c' == 83 # 4
            /\ emitted c'
               = (notifications UPDATE "a" (FObj (sample_frame 100 11 0))
                  ++ notifications START "a" (FObj (sample_frame 100 11 0)))%list).
Proof.
  eexists. split; [ vm_compute; reflexivity |].
  match goal with
  | |- delayCounter ?c == _ /\ _ =>
      destruct (delay_gates_start sample_calculateDuration sample_getFirstTick
                  sample_advance sample_advance 1 1 delayed_a fresh c walk
                  (sample_frame 100 11 0))
        as (_ & Hd & Hbelow & Hcross);
      [ vm_compute; reflexivity
      | vm_compute; reflexivity
      | reflexivity
      | vm_compute; reflexivity
      | vm_compute; reflexivity
      | ]
  end.
  split; [ vm_compute; reflexivity |].
  split; [ vm_compute; reflexivity |].
  split.
  - apply Hbelow; [ vm_compute; reflexivity | vm_compute; repeat split ].
  - specialize (Hcross [61 # 2; 161 # 4] 50).
    match type of Hcross with
    | ?E -> ?D -> ?A -> ?B -> _ =>
        assert (HE : E) by (vm_compute; reflexivity);
        assert (HD : D) by (vm_compute; reflexivity);
        assert (HA : A) by (vm_compute; repeat split);
        assert (HB : B) by (vm_compute; discriminate)
    end.
    specialize (Hcross HE HD HA HB).
    match type of Hcross with
    | returns ?r _ => destruct r as [c'| |]
    end; try contradiction.
    cbn [returns] in *.
    destruct Hcross as (H1 & H2 & H3 & _).
    split; [ exact H1 |]. split.
    + rewrite H2. vm_compute. reflexivity.
    + rewrite H3. reflexivity.
Defined.

Lemma after_ms_stop_preempts_witness :
  exists c,
    (c0 <- play sample_calculateDuration sample_getFirstTick
             (stop sample_calculateDuration sample_getFirstTick 1)
             (KString "a") None fresh ;;
     Ok (stopAfterDelay 100 c0))
    = Ok c
    /\ _pendingStop c = 1%Z
    /\ returns
         (update sample_advance sample_advance
            (stop sample_calculateDuration sample_getFirstTick 1) 0 120 c)
         (fun c' =>
            isPlaying c' = false
            /\ hasStarted c' = hasStarted c
            /\ currentFrame c' = currentFrame c
            /\ emitted c'
               = (emitted c ++ notifications STOP "a" (currentFrame c))%list).
Proof.
  eexists. split; [ vm_compute; reflexivity |].
  split; [ reflexivity |].
  match goal with
  | |- returns (update _ _ _ _ _ ?c) _ =>
      pose proof (after_ms_stop_preempts sample_calculateDuration
                    sample_getFirstTick sample_advance sample_advance
                    0 walk 0 120 100 c
                    eq_refl eq_refl eq_refl eq_refl eq_refl) as H
  end.
  cbv zeta in H. destruct H as [H _].
  assert (Hle : 100 - 120 <= 0) by (vm_compute; discriminate).
  destruct (H Hle) as (_ & _ & Hend).
  specialize (Hend eq_refl).
  match type of Hend with
  | returns ?r _ => destruct r as [c'| |]
  end; try contradiction.
  cbn [returns] in *.
  destruct Hend as (H1 & H2 & H3 & _ & H5).
  repeat split; assumption.
Defined.

Lemma after_repeat_count_is_clamped_witness :
  exists c,
    play sample_calculateDuration sample_getFirstTick
      (stop sample_calculateDuration sample_getFirstTick 1)
      (KString "a") None fresh
    = Ok c
    /\ repeatCounter c = 5
    /\ _pendingStopValue (stopAfterRepeat (Some 2) c) = PVNumber 2
    /\ _pendingStopValue (stopAfterRepeat (Some 7) c) = PVNumber 5
    /\ returns
         (playAfterRepeat sample_calculateDuration sample_getFirstTick
            (stop sample_calculateDuration sample_getFirstTick 1)
            (KString "b") (Some 2) c)
         (fun c' =>
            _pendingStop c' = 2%Z /\ _pendingStopValue c' = PVNumber 2).
Proof.
  eexists. split; [ vm_compute; reflexivity |].
  split; [ reflexivity |].
  match goal with
  | |- _pendingStopValue (stopAfterRepeat _ ?c) = _ /\ _ =>
      assert (Hfin : ~ repeatCounter c == -1)
        by (vm_compute; discriminate);
      destruct (after_repeat_count_is_clamped sample_calculateDuration
                  sample_getFirstTick
                  (stop sample_calculateDuration sample_getFirstTick 1)
                  (KString "b") 2 c Hfin)
        as ((_ & _ & Hkeep) & Hplay);
      destruct (after_repeat_count_is_clamped sample_calculateDuration
                  sample_getFirstTick
                  (stop sample_calculateDuration sample_getFirstTick 1)
                  (KString "b") 7 c Hfin)
        as ((_ & Hcut & _) & _)
  end.
  split; [ apply Hkeep; vm_compute; discriminate |].
  split; [ apply Hcut; vm_compute; reflexivity |].
  specialize (Hplay eq_refl).
  match type of Hplay with
  | returns ?r _ => destruct r as [c'| |]
  end; try contradiction.
  cbn [returns] in *.
  destruct Hplay as (H1 & _ & H3).
  split; [ exact H1 |]. apply H3. vm_compute. discriminate.
Defined.

Lemma accessors_when_unloaded_witness :
  currentAnim fresh = None
  /\ currentFrame fresh = FNull
  /\ getName fresh = ""
  /\ getTotalFrames fresh = 0
  /\ getProgress fresh = 0.
Proof.
  split; [ reflexivity |]. split; [ reflexivity |].
  apply (accessors_when_unloaded fresh); reflexivity.
Defined.



(** C8, as stated, fails: with an animation chained, [stop()] starts it, and
    the handler leaves the component playing the chained Definition, on
    that Definition's first frame. *)
Lemma remove_with_chain_plays_next :
  returns
    (c <- play sample_calculateDuration sample_getFirstTick
            (stop sample_calculateDuration sample_getFirstTick 1)
            (KString "a") None fresh ;;
     remove (stop sample_calculateDuration sample_getFirstTick 1)
       "a" (Some walk) (chain (Some [KString "b"]) c))
    (fun c' =>
       isPlaying c' = true
       /\ currentAnim c' = Some idle
       /\ currentFrame c' = FObj (sample_frame 200 3 0)
       /\ currentFrame c' <> FObj (sample_frame 100 11 0)).
Proof.
  vm_compute. repeat split. discriminate.
Qed.

Lemma remove_stops_on_first_frame_witness :
  exists c,
    (c0 <- play sample_calculateDuration sample_getFirstTick
             (stop sample_calculateDuration sample_getFirstTick 1)
             (KString "a") None fresh ;;
     setProgress sample_getFrameByProgress (1 # 2) c0)
    = Ok c
    /\ currentFrame c = FObj (sample_frame 100 11 5)
    /\ returns
         (remove (stop sample_calculateDuration sample_getFirstTick 1)
            "a" (Some walk) c)
         (fun c' =>
            isPlaying c' = false
            /\ currentFrame c' = FObj (sample_frame 100 11 0)
            /\ emitted c'
               = (emitted c ++ notifications STOP "a" (currentFrame c))%list).
Proof.
  eexists. split; [ vm_compute; reflexivity |].
  split; [ reflexivity |].
  match goal with
  | |- returns (remove _ _ _ ?c) _ =>
      destruct (remove_stops_on_first_frame sample_calculateDuration
                  sample_getFirstTick 0 "a" walk (sample_frame 100 11 0)
                  (map (sample_frame 100 11) (seq 1 10)) c
                  eq_refl eq_refl)
        as (_ & _ & H)
  end.
  specialize (H eq_refl eq_refl (Some walk) eq_refl).
  match type of H with
  | returns ?r _ => destruct r as [c'| |]
  end; try contradiction.
  cbn [returns] in *.
  destruct H as (H1 & _ & H3 & _ & H5).
  repeat split; assumption.
Defined.

(** C9, as stated, fails: [restart] on a component with nothing loaded
    returns at once and an armed stop survives it. *)
Lemma restart_unloaded_keeps_pending_stop :
  returns
    (restart sample_getFirstTick
       (stop sample_calculateDuration sample_getFirstTick 1)
       None None (stopAfterDelay 100 fresh))
    (fun c' => _pendingStop c' = 1%Z /\ _pendingStop c' <> 0%Z).
Proof.
  vm_compute. split; [ reflexivity | discriminate ].
Qed.

(** C4, on the code: on a component playing in reverse, [setProgress(0.3)]
    selects the frame 30% from the end (progress 7/10), and [getProgress]
    then returns -7/10, a whole unit away from 0.3 where one frame of the
    eleven is worth 1/10. *)
Theorem reverse_progress_is_negated :
  returns
    (c <- play sample_calculateDuration sample_getFirstTick
            (stop sample_calculateDuration sample_getFirstTick 1)
            (KString "a") None fresh ;;
     setProgress sample_getFrameByProgress (3 # 10) (reverse c))
    (fun c' =>
       inReverse c' = true
       /\ currentFrame c' = FObj (sample_frame 100 11 7)
       /\ getProgress c' == - (7 # 10)
       /\ ~ Qabs (getProgress c' - (3 # 10)) <= 1 # 10).
Proof.
  vm_compute. repeat split. intros H. apply H. reflexivity.
Qed.

(** C5, on the code: [setProgress] on a component with nothing loaded
    raises a TypeError. *)
Theorem setProgress_unloaded_faults :
  setProgress sample_getFrameByProgress (1 # 2) fresh
  = Throw (TypeError "Cannot read property 'getFrameByProgress' of null").
Proof.
  apply setProgress_unloaded. reflexivity.
Qed.

(** C6, on the code: a start index equal to the frame count passes the
    range test and leaves the current frame undefined; a reverse start at
    index 0 calls a method the component does not have. *)
Theorem load_start_frame_slips :
  returns
    (load sample_calculateDuration
       (stop sample_calculateDuration sample_getFirstTick 1)
       past_end_a fresh)
    (fun c' => currentAnim c' = Some walk /\ currentFrame c' = FUndefined)
  /\ playReverse sample_calculateDuration sample_getFirstTick
       (stop sample_calculateDuration sample_getFirstTick 1)
       (KString "a") None fresh
     = Throw (TypeError "this.getLastFrame is not a function").
Proof.
  split.
  - vm_compute. split; reflexivity.
  - vm_compute. reflexivity.
Qed.

Lemma pending_stop_is_reset_witness :
  exists c,
    (c0 <- play sample_calculateDuration sample_getFirstTick
             (stop sample_calculateDuration sample_getFirstTick 1)
             (KString "a") None fresh ;;
     Ok (stopAfterDelay 100 c0))
    = Ok c
    /\ _pendingStop c = 1%Z
    /\ returns (stop sample_calculateDuration sample_getFirstTick 1 c)
         (fun c' => _pendingStop c' = 0%Z)
    /\ returns
         (restart sample_getFirstTick
            (stop sample_calculateDuration sample_getFirstTick 1)
            None None c)
         (fun c' => _pendingStop c' = 0%Z).
Proof.
  eexists. split; [ vm_compute; reflexivity |].
  split; [ reflexivity |].
  match goal with
  | |- returns (stop _ _ _ ?c) _ /\ _ =>
      destruct (pending_stop_is_reset sample_calculateDuration
                  sample_getFirstTick 0 c)
        as (Hstop & _ & Hrestart & _);
      specialize (Hrestart None None)
  end.
  split.
  - match type of Hstop with
    | on_return _ ?r => destruct r as [c'| |] eqn:E
    end.
    + exact Hstop.
    + vm_compute in E. discriminate.
    + contradiction.
  - match type of Hrestart with
    | on_return _ ?r => destruct r as [c'| |] eqn:E
    end.
    + cbn [returns on_return] in *. apply Hrestart. discriminate.
    + vm_compute in E. discriminate.
    + contradiction.
Defined.

(** ** Concrete runs of the further properties *)

Lemma updates_ignore_idle_witness :
  idle_for_update fresh
  /\ updates sample_calculateDuration sample_getFirstTick sample_advance
       sample_advance 1 [16; 16; 16] fresh
     = Ok fresh.
Proof.
  assert (H : idle_for_update fresh) by (left; reflexivity).
  split; [ exact H |].
  apply (updates_ignore_idle sample_calculateDuration sample_getFirstTick
           sample_advance sample_advance 1 [16; 16; 16] fresh H).
Defined.

Lemma pause_then_resume_witness :
  exists c,
    play sample_calculateDuration sample_getFirstTick
      (stop sample_calculateDuration sample_getFirstTick 1)
      (KString "a") None fresh
    = Ok c
    /\ _paused c = false
    /\ isPlaying c = true
    /\ (c1 <- pause (stop sample_calculateDuration sample_getFirstTick 1)
                None c ;;
        resume (stop sample_calculateDuration sample_getFirstTick 1) None c1)
       = Ok (set__wasPlaying (isPlaying c) c).
Proof.
  eexists. split; [ vm_compute; reflexivity |].
  split; [ reflexivity |]. split; [ reflexivity |].
  apply pause_then_resume. reflexivity.
Defined.

Lemma pause_is_silent_and_freezes_witness :
  exists c c1,
    play sample_calculateDuration sample_getFirstTick
      (stop sample_calculateDuration sample_getFirstTick 1)
      (KString "a") None fresh
    = Ok c
    /\ pause (stop sample_calculateDuration sample_getFirstTick 1)
         (Some (FObj (sample_frame 100 11 4))) c
       = Ok c1
    /\ emitted c1 = emitted c
    /\ isPlaying c1 = false
    /\ currentFrame c1 = FObj (sample_frame 100 11 4)
    /\ updates sample_calculateDuration sample_getFirstTick sample_advance
         sample_advance 1 [16; 16] c1
       = Ok c1.
Proof.
  do 2 eexists. split; [ vm_compute; reflexivity |].
  split; [ vm_compute; reflexivity |].
  match goal with
  | |- emitted ?c1 = emitted ?c /\ _ =>
      assert (Hpause :
                pause (stop sample_calculateDuration sample_getFirstTick 1)
                  (Some (FObj (sample_frame 100 11 4))) c
                = Ok c1)
        by (vm_compute; reflexivity);
      destruct (pause_is_silent_and_freezes sample_calculateDuration
                  sample_getFirstTick sample_advance sample_advance
                  (stop sample_calculateDuration sample_getFirstTick 1)
                  1 (Some (FObj (sample_frame 100 11 4))) c c1
                  eq_refl Hpause)
        as (H1 & H2 & _ & _ & H5 & H6)
  end.
  split; [ exact H1 |]. split; [ exact H2 |].
  split; [ apply H5; reflexivity |]. apply H6.
Defined.

Lemma play_from_rest_witness :
  isPlaying fresh = false
  /\ manager_get (animationManager fresh) (requested_key delayed_a)
     = Some walk
  /\ on_return
       (fun c' =>
          currentAnim c' = Some walk
          /\ isPlaying c' = true
          /\ forward c' = true
          /\ _pendingStop c' = 0%Z
          /\ delayCounter c'
             = delayCounter fresh
               + GetFastValue delayed_a Cfg.delay (Def.delay walk)
          /\ repeatCounter c'
             = repeats_from
                 (GetFastValue delayed_a Cfg.repeat (Def.repeat walk))
          /\ ~ repeatCounter c' == -1)
       (play sample_calculateDuration sample_getFirstTick
          (stop sample_calculateDuration sample_getFirstTick 1)
          delayed_a (Some true) fresh).
Proof.
  split; [ reflexivity |]. split; [ reflexivity |].
  apply (play_from_rest sample_calculateDuration sample_getFirstTick
           (stop sample_calculateDuration sample_getFirstTick 1)
           delayed_a (Some true) walk fresh); reflexivity.
Defined.

Lemma chain_promotion_witness :
  exists c,
    (c0 <- play sample_calculateDuration sample_getFirstTick
             (stop sample_calculateDuration sample_getFirstTick 1)
             (KString "a") None fresh ;;
     Ok (chain (Some [KString "b"; KString "a"]) c0))
    = Ok c
    /\ next_key (nextAnim c) = Some (KString "b")
    /\ on_return
         (fun c' =>
            nextAnim c' = NKey (KString "a")
            /\ nextAnimsQueue c' = []
            /\ currentAnim c' = Some idle /\ isPlaying c' = true)
         (stop sample_calculateDuration sample_getFirstTick 1 c).
Proof.
  eexists. split; [ vm_compute; reflexivity |].
  split; [ reflexivity |].
  match goal with
  | |- on_return _ (stop _ _ _ ?c) =>
      destruct (chain_promotion sample_calculateDuration sample_getFirstTick
                  0 (KString "b") c eq_refl) as [H _]
  end.
  eapply on_return_weaken; [| exact H ].
  intros c' (H1 & H2 & H3).
  destruct (H3 idle eq_refl) as (H4 & H5 & _).
  repeat split; assumption.
Defined.

Lemma chain_after_last_promotion_witness :
  exists c,
    (c0 <- play sample_calculateDuration sample_getFirstTick
             (stop sample_calculateDuration sample_getFirstTick 1)
             (KString "a") None fresh ;;
     Ok (chain (Some [KString "b"]) c0))
    = Ok c
    /\ next_key (nextAnim c) = Some (KString "b")
    /\ nextAnimsQueue c = []
    /\ on_return
         (fun c' =>
            nextAnim (chain (Some [KString "a"]) c') = NUndefined
            /\ nextAnimsQueue (chain (Some [KString "a"]) c')
               = [KString "a"]
            /\ next_key (nextAnim (chain (Some [KString "a"]) c')) = None)
         (stop sample_calculateDuration sample_getFirstTick 1 c).
Proof.
  eexists. split; [ vm_compute; reflexivity |].
  split; [ reflexivity |]. split; [ reflexivity |].
  match goal with
  | |- on_return _ (stop _ _ _ ?c) =>
      destruct (chain_after_last_promotion sample_calculateDuration
                  sample_getFirstTick 0 (KString "b") [KString "a"] c
                  eq_refl eq_refl) as [H _]
  end.
  exact H.
Defined.

Lemma ending_without_chain_witness :
  exists c,
    play sample_calculateDuration sample_getFirstTick
      (stop sample_calculateDuration sample_getFirstTick 1)
      (KString "a") None fresh
    = Ok c
    /\ next_key (nextAnim c) = None
    /\ returns (stop sample_calculateDuration sample_getFirstTick 1 c)
         (fun c' =>
            isPlaying c' = false
            /\ currentFrame c' = currentFrame c
            /\ emitted c'
               = (emitted c
                  ++ notifications STOP "a" (currentFrame c))%list).
Proof.
  eexists. split; [ vm_compute; reflexivity |].
  split; [ reflexivity |].
  match goal with
  | |- returns (stop _ _ _ ?c) _ =>
      destruct (ending_without_chain sample_calculateDuration
                  sample_getFirstTick 0
                  (stop sample_calculateDuration sample_getFirstTick 1)
                  c eq_refl) as [H _]
  end.
  match type of H with
  | returns ?r _ => destruct r as [c'| |]
  end; try contradiction.
  cbn [returns] in *.
  destruct H as (H1 & _ & H3 & _ & _ & H6).
  repeat split; assumption.
Defined.

Lemma updates_between_ticks_witness :
  exists c,
    play sample_calculateDuration sample_getFirstTick
      (stop sample_calculateDuration sample_getFirstTick 1)
      (KConfig
         (Cfg.mk (Some "a") (Some 20) None None None None None None None
            None None None))
      None fresh
    = Ok c
    /\ hasStarted c = true
    /\ nextTick c == 50
    /\ exact_run (nextTick c) c ([33 # 2; 33 # 2; 33 # 2] ++ [33 # 2]) = true
    /\ updates sample_calculateDuration sample_getFirstTick sample_advance
         sample_advance 1 [33 # 2; 33 # 2; 33 # 2] c
       = Ok (set_accumulator (elapsed c [33 # 2; 33 # 2; 33 # 2]) c)
    /\ updates sample_calculateDuration sample_getFirstTick sample_advance
         sample_advance 1 ([33 # 2; 33 # 2; 33 # 2] ++ [33 # 2]) c
       = (if forward c then sample_advance else sample_advance) walk
           (set_accumulator
              (elapsed c ([33 # 2; 33 # 2; 33 # 2] ++ [33 # 2])) c).
Proof.
  eexists. split; [ vm_compute; reflexivity |].
  split; [ reflexivity |].
  split; [ vm_compute; reflexivity |].
  split; [ vm_compute; reflexivity |].
  match goal with
  | |- updates _ _ _ _ _ _ ?c = _ /\ _ =>
      assert (Hne : _pendingStop c <> 1%Z) by discriminate;
      assert (He : exact_run (nextTick c) c [33 # 2; 33 # 2; 33 # 2] = true)
        by (vm_compute; reflexivity);
      assert (Hb : stays_below (nextTick c) (timeScale c) (accumulator c)
                     [33 # 2; 33 # 2; 33 # 2])
        by (vm_compute; repeat split);
      destruct (updates_between_ticks sample_calculateDuration
                  sample_getFirstTick sample_advance sample_advance 1 walk
                  [33 # 2; 33 # 2; 33 # 2] c
                  eq_refl eq_refl eq_refl eq_refl Hne He Hb)
        as [H1 H2]
  end.
  split; [ exact H1 |].
  apply H2; [ vm_compute; reflexivity | vm_compute; discriminate ].
Defined.

Lemma load_start_frame_witness :
  isPlaying fresh = false
  /\ manager_get (animationManager fresh)
       (requested_key
          (KConfig
             (Cfg.mk (Some "a") None None None None None None None None
                None None (Some 3))))
     = Some walk
  /\ returns
       (load sample_calculateDuration
          (stop sample_calculateDuration sample_getFirstTick 1)
          (KConfig
             (Cfg.mk (Some "a") None None None None None None None None
                None None (Some 3)))
          fresh)
       (fun c' =>
          currentAnim c' = Some walk
          /\ currentFrame c' = FObj (sample_frame 100 11 3)).
Proof.
  split; [ reflexivity |]. split; [ reflexivity |].
  destruct (load_start_frame sample_calculateDuration
              (stop sample_calculateDuration sample_getFirstTick 1)
              (KConfig
                 (Cfg.mk (Some "a") None None None None None None None None
                    None None (Some 3)))
              walk fresh eq_refl eq_refl) as [H _].
  apply (H 3%nat (sample_frame 100 11 3)).
  - reflexivity.
  - reflexivity.
  - left. discriminate.
Defined.

Lemma stopOnFrame_stops_on_target_witness :
  exists c,
    play sample_calculateDuration sample_getFirstTick
      (stop sample_calculateDuration sample_getFirstTick 1)
      (KString "a") None fresh
    = Ok c
    /\ next_key (nextAnim c) = None
    /\ returns
         (updateFrame (stop sample_calculateDuration sample_getFirstTick 1)
            (FObj (sample_frame 100 11 2))
            (stopOnFrame (sample_frame 100 11 2) c))
         (fun c' =>
            isPlaying c' = false
            /\ _pendingStop c' = 0%Z
            /\ currentFrame c' = FObj (sample_frame 100 11 2))
    /\ returns
         (updateFrame (stop sample_calculateDuration sample_getFirstTick 1)
            (FObj (sample_frame 100 11 1))
            (stopOnFrame (sample_frame 100 11 2) c))
         (fun c' => isPlaying c' = true /\ _pendingStop c' = 3%Z).
Proof.
  eexists. split; [ vm_compute; reflexivity |].
  split; [ reflexivity |].
  match goal with
  | |- returns (updateFrame _ _ (stopOnFrame _ ?c)) _ /\ _ =>
      destruct (stopOnFrame_stops_on_target sample_calculateDuration
                  sample_getFirstTick 0 walk (sample_frame 100 11 2)
                  (sample_frame 100 11 1) c eq_refl eq_refl eq_refl)
        as [H1 H2];
      specialize (H2 eq_refl)
  end.
  split.
  - match type of H1 with
    | returns ?r _ => destruct r as [c'| |]
    end; try contradiction.
    cbn [returns] in *. destruct H1 as (A1 & A2 & A3 & _).
    repeat split; assumption.
  - match type of H2 with
    | returns ?r _ => destruct r as [c'| |]
    end; try contradiction.
    cbn [returns] in *. destruct H2 as (A1 & A2 & _).
    split; assumption.
Defined.

Lemma restart_rewinds_witness :
  exists c,
    (c0 <- play sample_calculateDuration sample_getFirstTick
             (stop sample_calculateDuration sample_getFirstTick 1)
             (KString "a") None fresh ;;
     setProgress sample_getFrameByProgress (1 # 2) c0)
    = Ok c
    /\ currentFrame c = FObj (sample_frame 100 11 5)
    /\ returns
         (restart sample_getFirstTick
            (stop sample_calculateDuration sample_getFirstTick 1)
            (Some true) None c)
         (fun c' =>
            isPlaying c' = true
            /\ hasStarted c' = false
            /\ currentFrame c' = FObj (sample_frame 100 11 0)
            /\ delayCounter c' = delayCounter c).
Proof.
  eexists. split; [ vm_compute; reflexivity |].
  split; [ reflexivity |].
  match goal with
  | |- returns (restart _ _ _ _ ?c) _ =>
      pose proof (restart_rewinds sample_getFirstTick
                    (stop sample_calculateDuration sample_getFirstTick 1)
                    (Some true) None walk (sample_frame 100 11 0)
                    (map (sample_frame 100 11) (seq 1 10)) c
                    eq_refl eq_refl) as H
  end.
  match type of H with
  | returns ?r _ => destruct r as [c'| |]
  end; try contradiction.
  cbn [returns] in *.
  destruct H as (A1 & _ & _ & A4 & A5 & _ & A7 & _).
  repeat split; assumption.
Defined.

Lemma playAfterDelay_hands_over_witness :
  exists c,
    play sample_calculateDuration sample_getFirstTick
      (stop sample_calculateDuration sample_getFirstTick 1)
      (KString "a") None fresh
    = Ok c
    /\ isPlaying c = true
    /\ returns
         (playAfterDelay sample_calculateDuration sample_getFirstTick
            (stop sample_calculateDuration sample_getFirstTick 1)
            (KString "b") 100 c)
         (fun c1 =>
            isPlaying c1 = true
            /\ currentAnim c1 = Some walk
            /\ on_return
                 (fun c' => currentAnim c' = Some idle /\ isPlaying c' = true)
                 (update sample_advance sample_advance
                    (stop sample_calculateDuration sample_getFirstTick 1)
                    0 120 c1)).
Proof.
  eexists. split; [ vm_compute; reflexivity |].
  split; [ reflexivity |].
  match goal with
  | |- returns (playAfterDelay _ _ _ _ _ ?c) _ =>
      assert (Hle : 100 - 120 <= 0) by (vm_compute; discriminate);
      pose proof (playAfterDelay_hands_over sample_calculateDuration
                    sample_getFirstTick sample_advance sample_advance
                    0 (KString "b") 100 120 walk c
                    eq_refl eq_refl eq_refl eq_refl Hle) as H
  end.
  match type of H with
  | returns ?r _ => destruct r as [c1| |]
  end; try contradiction.
  cbn [returns] in *.
  destruct H as (A1 & A2 & _ & _ & A5).
  split; [ exact A1 |]. split; [ exact A2 |].
  eapply on_return_weaken; [| exact A5 ].
  intros c' (_ & _ & _ & B4).
  destruct (B4 idle eq_refl) as (C1 & C2 & _). split; assumption.
Defined.

Lemma coherence_is_kept_witness :
  exists c,
    play sample_calculateDuration sample_getFirstTick
      (stop sample_calculateDuration sample_getFirstTick 1)
      (KString "a") None fresh
    = Ok c
    /\ coherent c
    /\ isPlaying c = true
    /\ on_return (sound c)
         (stop sample_calculateDuration sample_getFirstTick 1 c)
    /\ on_return (sound c)
         (play sample_calculateDuration sample_getFirstTick
            (stop sample_calculateDuration sample_getFirstTick 1)
            (KString "zzz") None c)
    /\ on_return (sound c)
         (pause (stop sample_calculateDuration sample_getFirstTick 1)
            None c)
    /\ on_return (sound c)
         (updates sample_calculateDuration sample_getFirstTick
            sample_advance sample_advance 1 [16; 16; 16] c).
Proof.
  eexists. split; [ vm_compute; reflexivity |].
  match goal with
  | |- coherent ?c /\ _ =>
      assert (H : coherent c)
        by (split; [ intros _ | intros _ _ ]; vm_compute; discriminate);
      destruct (coherence_is_kept sample_calculateDuration
                  sample_getFirstTick sample_advance sample_advance 0 c H)
        as (Hstop & _ & _ & _ & Hplay & _ & _ & _ & Hpause & _ & Hupd)
  end.
  split; [ exact H |]. split; [ reflexivity |].
  split; [ exact Hstop |].
  split; [ apply (proj1 (Hplay (KString "zzz") None)) |].
  split; [ apply (proj1 (Hpause None)) |].
  apply Hupd.
  - intros anim c0 [H1 H2]. unfold sample_advance. cbn [on_return].
    split; [ split; [ exact H1 | exact H2 ] | intros Hl; exact Hl ].
  - intros anim c0 [H1 H2]. unfold sample_advance. cbn [on_return].
    split; [ split; [ exact H1 | exact H2 ] | intros Hl; exact Hl ].
Defined.

Lemma start_unresolved_witness :
  exists c,
    load sample_calculateDuration
      (stop sample_calculateDuration sample_getFirstTick 1)
      (KString "a") (stopAfterDelay 100 fresh)
    = Ok c
    /\ isPlaying (stopAfterDelay 100 fresh) = false
    /\ manager_get (animationManager (stopAfterDelay 100 fresh))
         (requested_key (KString "zzz"))
       = None
    /\ returns
         (play sample_calculateDuration sample_getFirstTick
            (stop sample_calculateDuration sample_getFirstTick 1)
            (KString "zzz") None (stopAfterDelay 100 fresh))
         (fun c' =>
            _pendingStop c' = 1%Z
            /\ isPlaying c' = false
            /\ console c' = ["Missing animation: zzz"])
    /\ on_return
         (fun c' =>
            currentAnim c' = Some walk
            /\ isPlaying c' = true
            /\ _pendingStop c' = 0%Z)
         (play sample_calculateDuration sample_getFirstTick
            (stop sample_calculateDuration sample_getFirstTick 1)
            (KString "zzz") None c).
Proof.
  eexists. split; [ vm_compute; reflexivity |].
  split; [ reflexivity |]. split; [ reflexivity |].
  split.
  - destruct (start_unresolved sample_calculateDuration sample_getFirstTick
                (stop sample_calculateDuration sample_getFirstTick 1)
                (KString "zzz") None (stopAfterDelay 100 fresh)
                eq_refl eq_refl) as [H _].
    specialize (H eq_refl).
    match type of H with
    | returns ?r _ => destruct r as [c'| |]
    end; try contradiction.
    cbn [returns] in *.
    destruct H as (A1 & _ & A3 & _ & A5).
    split; [ exact A1 |]. split; [ exact A3 |]. exact A5.
  - match goal with
    | |- on_return _ (play _ _ _ _ _ ?c) =>
        destruct (start_unresolved sample_calculateDuration
                    sample_getFirstTick
                    (stop sample_calculateDuration sample_getFirstTick 1)
                    (KString "zzz") None c eq_refl eq_refl) as [_ H]
    end.
    eapply on_return_weaken; [| apply (H walk eq_refl) ].
    intros c' (B1 & B2 & B3 & _). repeat split; assumption.
Defined.
